(** * lbrytv player: the seekable decrypting blob-stream reader

    A shallow embedding of [app/player/player.go]: the [reflectedStream]
    record with its [Read], [Seek], [resolve], [fetchData] and [streamBlob]
    methods, followed by the properties of the reader that the streaming
    specification relies on.

    Conventions of the embedding.
    - [int64] and [int] values are integers of [Z] kept in the signed 64-bit
      range; every arithmetic operation of the source is written with its
      wrap-around ([add64], [sub64], [mul64]).  [int] is taken to be 64 bits
      wide, as on the platforms the server is built for.
    - A method with a pointer receiver is a computation of the monad [Go],
      which threads the receiver and the log of calls made to the outside
      world (resolver, HTTP), and which either returns or panics.
    - The collaborators the file imports (the resolver, [net/http], the
      descriptor parser, the blob cipher, [sort.Slice], the constant
      [stream.MaxBlobSize]) are the fields of a record [World]. *)

From Stdlib Require Import ZArith NArith List String Ascii Bool Lia.
From Stdlib Require Import Sorting.Sorted Sorting.Permutation.
From Stdlib Require Init.Byte Strings.Byte.
Import ListNotations.

Local Open Scope string_scope.
Local Open Scope list_scope.
Local Open Scope Z_scope.

(** ** Machine integers *)

Definition min_int64 : Z := - 2 ^ 63.
Definition max_int64 : Z := 2 ^ 63 - 1.

(** The value an [int64] holds after an operation whose exact result is
    [z]: the representative of [z] modulo [2^64] in the signed range. *)
Definition wrap64 (z : Z) : Z := (z + 2 ^ 63) mod 2 ^ 64 - 2 ^ 63.

Definition int64_range (z : Z) : Prop := min_int64 <= z <= max_int64.

Definition add64 (a b : Z) : Z := wrap64 (a + b).
Definition sub64 (a b : Z) : Z := wrap64 (a - b).
Definition mul64 (a b : Z) : Z := wrap64 (a * b).
(** Go's [/] on integers truncates toward zero. *)
Definition quo64 (a b : Z) : Z := wrap64 (Z.quot a b).

(** ** Bytes, [encoding/hex] and slices *)

Definition byte : Type := Init.Byte.byte.

Definition hextable : string := "0123456789abcdef".

Definition hex_digit (v : N) : ascii :=
  match String.get (N.to_nat v) hextable with
  | Some c => c
  | None => "0"%char
  end.

(** [hex.EncodeToString]: two lower-case digits per byte, high nibble
    first ([hextable[v>>4]], [hextable[v&0x0f]]). *)
Fixpoint hex_EncodeToString (src : list byte) : string :=
  match src with
  | [] => EmptyString
  | v :: rest =>
      String (hex_digit (N.shiftr (Strings.Byte.to_N v) 4))
        (String (hex_digit (N.land (Strings.Byte.to_N v) 15))
           (hex_EncodeToString rest))
  end.

(** [len(x)] as an [int]. *)
Definition len {A : Type} (x : list A) : Z := Z.of_nat (List.length x).

(** The builtin [copy(dst, src)]: the first [min(len(dst), len(src))]
    elements of [src] overwrite the start of [dst]; the count is returned. *)
Definition copy (dst src : list byte) : list byte * Z :=
  let k := Nat.min (List.length dst) (List.length src) in
  (firstn k src ++ skipn k dst, Z.of_nat k).

(** ** Errors and panics *)

(** An [error] value.  [errors_New] and [fmt_Errorf] are the errors the
    player creates itself; [foreign] stands for an error handed back by a
    collaborator and is only ever passed on. *)
Inductive error : Type :=
| errors_New (text : string)
| fmt_Errorf (text : string)
| foreign (what : string).

(** Run-time panics of the Go runtime that the player can raise. *)
Inductive runtimeError : Type :=
| IndexOutOfRange (index length : Z)
| SliceBoundsOutOfRange (low high : Z)
| NilPointerDereference.

Inductive Result (A : Type) : Type :=
| Returns (a : A)
| Panics (e : runtimeError).
Arguments Returns {A} a.
Arguments Panics {A} e.

(** ** Data declared by the collaborating libraries *)

(** [stream.BlobInfo] of lbry.go. *)
Record BlobInfo : Type := mkBlobInfo {
  Length : Z;
  BlobNum : Z;
  BlobHash : list byte;
  IV : list byte
}.

(** [stream.SDBlob] of lbry.go, with the fields the player reads. *)
Record SDBlob : Type := mkSDBlob {
  BlobInfos : list BlobInfo;
  Key : list byte
}.

(** The part of a resolved claim the player looks at.  Pointers that may
    be nil are options.  [Stream_Fee] and [Stream_Source] are the fields
    [Fee] and [Source] of the stream, [Source_SdHash] and [Source_Size] the
    fields [SdHash] and [Size] of its source. *)
Record Fee : Type := mkFee { Amount : Z (* uint64 *) }.
Record Source : Type := mkSource {
  Source_SdHash : list byte;
  MediaType : string;
  Source_Size : Z (* uint64 *)
}.
Record Stream : Type := mkStream {
  Stream_Fee : option Fee;
  Stream_Source : option Source
}.
Record Claim : Type := mkClaim { GetStream : option Stream }.

(** An [http.Response]; [Body] is what [ioutil.ReadAll] makes of the
    response body. *)
Record Response : Type := mkResponse {
  StatusCode : Z;
  Status : string;
  Body : error + list byte
}.

Definition http_StatusOK : Z := 200.

(** Calls that leave the process. *)
Inductive event : Type :=
| Resolved (uri : string)
| HttpGet (url : string).

(** The collaborators.  A call to the resolver or to [http.Get] may
    answer differently every time: its answer depends on the log of the
    calls made before it. *)
Record World : Type := mkWorld {
  MaxBlobSize : Z;
  lbrynet_Resolve : list event -> string -> error + Claim;
  http_Get_answer : list event -> string -> error + Response;
  UnmarshalJSON : list byte -> error + SDBlob;
  DecryptBlob : list byte -> list byte -> list byte -> error + list byte;
  sort_Slice : (BlobInfo -> BlobInfo -> bool) -> list BlobInfo -> list BlobInfo
}.

(** ** The stream handle *)

Definition reflectorURL : string := "http://blobs.lbry.io/".

(** [SDBlob_ptr] is the field [SDBlob], a pointer that is nil until
    [fetchData] has run. *)
Record reflectedStream : Type := mkReflectedStream {
  URI : string;
  StartByte : Z;
  EndByte : Z;
  SdHash : string;
  Size : Z;
  ContentType : string;
  SDBlob_ptr : option SDBlob;
  seekOffset : Z
}.

Definition set_seekOffset (v : Z) (s : reflectedStream) : reflectedStream :=
  mkReflectedStream (URI s) (StartByte s) (EndByte s) (SdHash s) (Size s)
    (ContentType s) (SDBlob_ptr s) v.

Definition set_Size (v : Z) (s : reflectedStream) : reflectedStream :=
  mkReflectedStream (URI s) (StartByte s) (EndByte s) (SdHash s) v
    (ContentType s) (SDBlob_ptr s) (seekOffset s).

Definition set_SDBlob (v : option SDBlob) (s : reflectedStream) : reflectedStream :=
  mkReflectedStream (URI s) (StartByte s) (EndByte s) (SdHash s) (Size s)
    (ContentType s) v (seekOffset s).

Definition set_resolved (sd : string) (ct : string) (size : Z)
    (s : reflectedStream) : reflectedStream :=
  mkReflectedStream (URI s) (StartByte s) (EndByte s) sd size ct
    (SDBlob_ptr s) (seekOffset s).

(** ** The monad of method bodies *)

Record machine : Type := mkMachine {
  self : reflectedStream;
  calls : list event
}.

Definition Go (A : Type) : Type := machine -> Result A * machine.

Definition ret {A} (a : A) : Go A := fun m => (Returns a, m).
Definition panic {A} (e : runtimeError) : Go A := fun m => (Panics e, m).
Definition bind {A B} (c : Go A) (k : A -> Go B) : Go B :=
  fun m =>
    match c m with
    | (Returns a, m') => k a m'
    | (Panics e, m') => (Panics e, m')
    end.

Declare Scope go_scope.
Delimit Scope go_scope with go.
Notation "x <- c ;; k" := (bind c (fun x => k))
  (at level 61, c at next level, right associativity) : go_scope.
Notation "c ;; k" := (bind c (fun _ => k))
  (at level 61, right associativity) : go_scope.
Local Open Scope go_scope.

Definition this : Go reflectedStream := fun m => (Returns (self m), m).
Definition update (f : reflectedStream -> reflectedStream) : Go unit :=
  fun m => (Returns tt, mkMachine (f (self m)) (calls m)).

(** Following a pointer: nil panics. *)
Definition deref {A} (p : option A) : Go A :=
  match p with
  | Some a => ret a
  | None => panic NilPointerDereference
  end.

(** The index expression [a[i]]. *)
Definition index {A} (a : list A) (i : Z) : Go A :=
  if (0 <=? i) && (i <? len a) then
    match nth_error a (Z.to_nat i) with
    | Some x => ret x
    | None => panic (IndexOutOfRange i (len a))
    end
  else panic (IndexOutOfRange i (len a)).

(** The slice expression [a[low:high]] on a slice whose capacity is its
    length.  (In [streamBlob] the upper bound never exceeds the length, so
    spare capacity would not change the outcome.) *)
Definition slice (a : list byte) (low high : Z) : Go (list byte) :=
  if (0 <=? low) && (low <=? high) && (high <=? len a) then
    ret (firstn (Z.to_nat (high - low)) (skipn (Z.to_nat low) a))
  else panic (SliceBoundsOutOfRange low high).

(** ** io.Seeker constants *)

Definition io_SeekStart : Z := 0.
Definition io_SeekCurrent : Z := 1.
Definition io_SeekEnd : Z := 2.

(** ** Methods of [reflectedStream]

    The calls to the logger are left out: they read the handle and write
    nothing the player looks at again. *)

Section Player.

Variable W : World.

(** Calls to the outside are logged and answered by the world. *)
Definition Resolve (uri : string) : Go (error + Claim) :=
  fun m => (Returns (lbrynet_Resolve W (calls m) uri),
            mkMachine (self m) (calls m ++ [Resolved uri])).

Definition http_Get (url : string) : Go (error + Response) :=
  fun m => (Returns (http_Get_answer W (calls m) url),
            mkMachine (self m) (calls m ++ [HttpGet url])).

(** The if-chain at the head of [Seek]: the offset asked for, or
    nothing when [whence] is not one of the three constants. *)
Definition Seek_newSeekOffset (s : reflectedStream) (offset : Z) (whence : Z)
    : option Z :=
  if whence =? io_SeekEnd then Some (sub64 (Size s) offset)
  else if whence =? io_SeekStart then Some offset
  else if whence =? io_SeekCurrent then Some (add64 (seekOffset s) offset)
  else None.

(** [Seek] implements [io.Seeker]. *)
Definition Seek (offset : Z) (whence : Z) : Go (Z * option error) :=
  s <- this ;;
  match Seek_newSeekOffset s offset whence with
  | None => ret (0, Some (errors_New "invalid seek whence argument"))
  | Some newSeekOffset =>
      if 0 >? newSeekOffset then
        ret (0, Some (errors_New "seeking before the beginning of file"))
      else
        update (set_seekOffset newSeekOffset) ;;
        ret (newSeekOffset, None)
  end.

Definition URL (s : reflectedStream) : string :=
  String.append reflectorURL (SdHash s).

Definition blobInfoURL (bi : BlobInfo) : string :=
  String.append reflectorURL (hex_EncodeToString (BlobHash bi)).

(** The blob a cursor falls into, and the offset inside that blob, as
    [Read] computes them. *)
Definition Read_blobNum (cursor : Z) : Z :=
  quo64 cursor (MaxBlobSize W - 2).

Definition Read_startOffsetInBlob (cursor : Z) : Z :=
  let blobNum := Read_blobNum cursor in
  if blobNum =? 0 then
    sub64 cursor (mul64 blobNum (MaxBlobSize W))
  else
    add64 (sub64 cursor (mul64 blobNum (MaxBlobSize W))) blobNum.

(** [streamBlob] downloads and decrypts one blob and copies a range of
    it into [dest].  The result carries the contents of [dest] after the
    call next to the pair [(n, err)]. *)
Definition streamBlob (blobNum : Z) (startOffsetInBlob : Z)
    (dest : list byte) : Go (Z * option error * list byte) :=
  s <- this ;;
  sdb <- deref (SDBlob_ptr s) ;;
  bi <- index (BlobInfos sdb) blobNum ;;
  let n := 0 in
  let startOffsetInBlob := if n >? 0 then 0 else startOffsetInBlob in
  let url := blobInfoURL bi in
  got <- http_Get url ;;
  match got with
  | inl err => ret (0, Some err, dest)
  | inr resp =>
      if StatusCode resp =? http_StatusOK then
        match Body resp with
        | inl err => ret (0, Some err, dest)
        | inr encryptedBody =>
            match DecryptBlob W encryptedBody (Key sdb) (IV bi) with
            | inl err => ret (0, Some err, dest)
            | inr decryptedBody =>
                let endOffsetInBlob := add64 (len dest) startOffsetInBlob in
                let endOffsetInBlob :=
                  if endOffsetInBlob >? len decryptedBody
                  then len decryptedBody else endOffsetInBlob in
                part <- slice decryptedBody startOffsetInBlob endOffsetInBlob ;;
                let (dest', thisN) := copy dest part in
                let n := add64 n thisN in
                ret (n, None, dest')
            end
        end
      else
        ret (n,
             Some (fmt_Errorf
                     (String.append "server responded with an unexpected status ("
                        (String.append (Status resp) ")"))),
             dest)
  end.

(** The end of [Read]: [s.seekOffset += int64(n)], then [return n, err]. *)
Definition Read_advance (r : Z * option error * list byte)
    : Go (Z * option error * list byte) :=
  let '(n, err, p') := r in
  update (fun s => set_seekOffset (add64 (seekOffset s) n) s) ;;
  ret (n, err, p').

(** [Read] implements [io.Reader].  (The buffer length and the end of
    the requested range are computed for the debug log only.) *)
Definition Read (p : list byte) : Go (Z * option error * list byte) :=
  s <- this ;;
  let blobNum := Read_blobNum (seekOffset s) in
  let startOffsetInBlob := Read_startOffsetInBlob (seekOffset s) in
  r <- streamBlob blobNum startOffsetInBlob p ;;
  Read_advance r.

Definition resolve : Go (option error) :=
  s <- this ;;
  if String.eqb (URI s) "" then
    ret (Some (errors_New "stream uri is not set"))
  else
    r <- Resolve (URI s) ;;
    match r with
    | inl err => ret (Some err)
    | inr r =>
        stream <- deref (GetStream r) ;;
        if match Stream_Fee stream with
           | Some fee => Amount fee >? 0
           | None => false
           end
        then ret (Some (errors_New "paid stream"))
        else
          source <- deref (Stream_Source stream) ;;
          update (set_resolved (hex_EncodeToString (Source_SdHash source))
                    (MediaType source) (wrap64 (Source_Size source))) ;;
          ret None
    end.

(** One turn of the size loop of [fetchData]. *)
Definition addBlobSize (size : Z) (bi : BlobInfo) : Z :=
  if Length bi =? MaxBlobSize W
  then add64 size (MaxBlobSize W - 1)
  else add64 size (Length bi).

Definition blobNumLess (a b : BlobInfo) : bool := BlobNum a <? BlobNum b.

Definition fetchData : Go (option error) :=
  s <- this ;;
  if String.eqb (SdHash s) "" then
    ret (Some (errors_New "no sd hash set, call `resolve` first"))
  else
    got <- http_Get (URL s) ;;
    match got with
    | inl err => ret (Some err)
    | inr resp =>
        match Body resp with
        | inl err => ret (Some err)
        | inr body =>
            match UnmarshalJSON W body with
            | inl err => ret (Some err)
            | inr sdb =>
                (if Size s =? 0 then
                   update (fun s =>
                             set_Size (fold_left addBlobSize (BlobInfos sdb) (Size s)) s) ;;
                   (* last padding is unguessable *)
                   update (fun s => set_Size (sub64 (Size s) 15) s)
                 else ret tt) ;;
                let sdb := mkSDBlob (sort_Slice W blobNumLess (BlobInfos sdb)) (Key sdb) in
                update (set_SDBlob (Some sdb)) ;;
                ret None
            end
        end
    end.

End Player.

(** [newReflectedStream] starts from the zero value of the record with
    the URI filled in, and resolves it. *)
Definition zeroStream (uri : string) : reflectedStream :=
  mkReflectedStream uri 0 0 "" 0 "" None 0.

Definition newReflectedStream (W : World) (uri : string) (log : list event)
    : Result (option error) * machine :=
  resolve W (mkMachine (zeroStream uri) log).

(** [PlayURI] up to the hand-over to the range-serving facility, which is
    the computation [ServeContent] run on the handle.  (Setting the
    Content-Type header acts on the response writer only.) *)
Definition PlayURI (W : World) (ServeContent : Go unit) (uri : string)
    (log : list event) : Result (option error) * machine :=
  match newReflectedStream W uri log with
  | (Returns (Some err), m) => (Returns (Some err), m)
  | (Returns None, m) =>
      (err <- fetchData W ;;
       match err with
       | Some err => ret (Some err)
       | None => ServeContent ;; ret None
       end) m
  | (Panics e, m) => (Panics e, m)
  end.

(** ** A concrete world

    A world to run the player in: [stream.MaxBlobSize] has the value lbry.go
    gives it, the resolver knows a free and a paid stream, the reflector
    serves a two-blob stream whose descriptor lists the blobs out of order,
    the cipher is the identity and sorting is by insertion. *)

Fixpoint insertBy {A : Type} (less : A -> A -> bool) (x : A) (l : list A) : list A :=
  match l with
  | [] => [x]
  | y :: rest => if less y x then y :: insertBy less x rest else x :: l
  end.

Definition insertionSort {A : Type} (less : A -> A -> bool) (l : list A) : list A :=
  fold_right (insertBy less) [] l.

Definition x00 : byte := Init.Byte.x00.
Definition x01 : byte := Init.Byte.x01.
Definition x02 : byte := Init.Byte.x02.
Definition x03 : byte := Init.Byte.x03.
Definition x04 : byte := Init.Byte.x04.
Definition xaa : byte := Init.Byte.xaa.
Definition xbb : byte := Init.Byte.xbb.

Definition demoBlob0 : BlobInfo := mkBlobInfo 2097152 0 [xaa] [x01].
Definition demoBlob1 : BlobInfo := mkBlobInfo 48 1 [xbb] [x02].
Definition demoSDBlob : SDBlob := mkSDBlob [demoBlob1; demoBlob0] [x03].

Definition demoFree : Claim :=
  mkClaim (Some (mkStream None (Some (mkSource [xaa; xbb] "video/mp4" 0)))).
Definition demoPaid : Claim :=
  mkClaim (Some (mkStream (Some (mkFee 1)) (Some (mkSource [xaa; xbb] "video/mp4" 7)))).

Definition demoResolve (_ : list event) (uri : string) : error + Claim :=
  if String.eqb uri "lbry://free" then inr demoFree
  else if String.eqb uri "lbry://paid" then inr demoPaid
  else inl (foreign "not found").

Definition demoGet (_ : list event) (url : string) : error + Response :=
  if String.eqb url "http://blobs.lbry.io/aa" then
    inr (mkResponse 200 "200 OK" (inr [x01; x02; x03; x04]))
  else if String.eqb url "http://blobs.lbry.io/bb" then
    inr (mkResponse 200 "200 OK" (inr [x04; x03]))
  else if String.eqb url "http://blobs.lbry.io/aabb" then
    inr (mkResponse 200 "200 OK" (inr []))
  else inr (mkResponse 404 "404 Not Found" (inr [])).

Definition demoWorld : World :=
  mkWorld 2097152 demoResolve demoGet
    (fun _ => inr demoSDBlob)
    (fun body _ _ => inr body)
    (@insertionSort BlobInfo).

(** The handle after resolution and index fetch in [demoWorld]. *)
Definition demoStream (cursor : Z) : reflectedStream :=
  mkReflectedStream "lbry://free" 0 0 "aabb" 2097184 "video/mp4"
    (Some (mkSDBlob [demoBlob0; demoBlob1] [x03])) cursor.

(** The handle between resolution and index fetch. *)
Definition demoResolved : reflectedStream :=
  mkReflectedStream "lbry://free" 0 0 "aabb" 0 "video/mp4" None 0.

(** ** Names of the specification

    The error kinds of the streaming specification, as the error values
    the player creates for them. *)

Definition ValidationError : error := errors_New "stream uri is not set".
Definition PaidContentError : error := errors_New "paid stream".
Definition InvalidWhenceError : error := errors_New "invalid seek whence argument".
Definition NegativeSeekError : error :=
  errors_New "seeking before the beginning of file".

(** What the library constant must satisfy for [Read] to divide by a
    positive number: lbry.go has [MaxBlobSize = 2097152]. *)
Definition MaxBlobSize_ok (W : World) : Prop := 2 < MaxBlobSize W <= max_int64.

(** The machine after a successful seek to [v]. *)
Definition moved (v : Z) (m : machine) : machine :=
  mkMachine (set_seekOffset v (self m)) (calls m).

(** The machine after one more [http.Get], and after [Read] has added
    [n] to the cursor. *)
Definition fetched (url : string) (m : machine) : machine :=
  mkMachine (self m) (calls m ++ [HttpGet url]).

Definition advanced (n : Z) (m : machine) : machine :=
  mkMachine (set_seekOffset (add64 (seekOffset (self m)) n) (self m)) (calls m).

(** The error [streamBlob] makes of a response that is not [200 OK]. *)
Definition BlobFetchError (resp : Response) : error :=
  fmt_Errorf (String.append "server responded with an unexpected status ("
                (String.append (Status resp) ")")).

(** The four ways the fetch of blob [bi] can end in an error [e]:
    transport failure, a status other than [200 OK], a failure to read
    the body, a failure to decrypt. *)
Definition blobFails (W : World) (log : list event) (sdb : SDBlob) (bi : BlobInfo)
    (e : error) : Prop :=
  http_Get_answer W log (blobInfoURL bi) = inl e \/
  exists resp,
    http_Get_answer W log (blobInfoURL bi) = inr resp /\
    ((StatusCode resp <> http_StatusOK /\ e = BlobFetchError resp) \/
     (StatusCode resp = http_StatusOK /\
      (Body resp = inl e \/
       exists enc, Body resp = inr enc /\
                   DecryptBlob W enc (Key sdb) (IV bi) = inl e))).

(** A handle whose only blob the reflector does not have. *)
Definition demoMissing : reflectedStream :=
  mkReflectedStream "lbry://free" 0 0 "aabb" 10 "video/mp4"
    (Some (mkSDBlob [mkBlobInfo 10 0 [x00] [x01]] [x03])) 0.

(** A single-blob stream of four plaintext bytes, served by [demoWorld]. *)
Definition demoSingle (cursor : Z) : reflectedStream :=
  mkReflectedStream "lbry://free" 0 0 "aabb" 4 "video/mp4"
    (Some (mkSDBlob [demoBlob0] [x03])) cursor.

(** A world whose reflector serves one blob of [MaxBlobSize - 2] bytes of
    plaintext, and the single-blob stream made of it. *)
Definition bigBody : list byte := repeat x00 (Z.to_nat 2097150).

Definition bigSingle (cursor : Z) : reflectedStream :=
  mkReflectedStream "lbry://free" 0 0 "aabb" 2097150 "video/mp4"
    (Some (mkSDBlob [demoBlob0] [x03])) cursor.

Definition bigWorld : World :=
  mkWorld 2097152 demoResolve
    (fun _ _ => inr (mkResponse 200 "200 OK" (inr bigBody)))
    (fun _ => inr (mkSDBlob [demoBlob0] [x03]))
    (fun body _ _ => inr body)
    (@insertionSort BlobInfo).

(** ** The size estimate, in the words of the specification *)

(** What one descriptor contributes: [MaxBlobSize - 1] for a blob of
    full declared length, the declared length otherwise. *)
Definition plainLength (W : World) (bi : BlobInfo) : Z :=
  if Length bi =? MaxBlobSize W then MaxBlobSize W - 1 else Length bi.

Definition sumZ (l : list Z) : Z := fold_right Z.add 0 l.

Definition estimatedSize (W : World) (blobs : list BlobInfo) : Z :=
  sumZ (map (plainLength W) blobs) - 15.

(** ** The contract of [sort.Slice]

    [sort.Slice] permutes the slice so that no later element is less than
    an earlier one; it promises no more (it is not stable). *)
Definition byBlobNum (a b : BlobInfo) : Prop := BlobNum a <= BlobNum b.

Definition sort_Slice_ok (W : World) : Prop :=
  forall l : list BlobInfo,
    Permutation l (sort_Slice W blobNumLess l) /\
    StronglySorted byBlobNum (sort_Slice W blobNumLess l).

(** The contract in full, for whatever [less] the caller passes: [less]
    has to describe a transitive ordering (of [Less]: if two calls in a row
    are both true, or both false, so is the call on the outer pair), and
    then the slice comes back permuted with no element less than one
    before it.  What order that is depends on [less] alone. *)
Definition transitiveOrdering {A : Type} (less : A -> A -> bool) : Prop :=
  (forall a, less a a = false) /\
  (forall a b c, less a b = true -> less b c = true -> less a c = true) /\
  (forall a b c, less a b = false -> less b c = false -> less a c = false).

Definition sort_Slice_sorts (W : World) : Prop :=
  forall less : BlobInfo -> BlobInfo -> bool,
    transitiveOrdering less ->
    forall l : list BlobInfo,
      Permutation l (sort_Slice W less l) /\
      StronglySorted (fun a b => less b a = false) (sort_Slice W less l).

(** The machine after one call to the resolver. *)
Definition resolved (uri : string) (m : machine) : machine :=
  mkMachine (self m) (calls m ++ [Resolved uri]).

(** A resolved stream is paid when it has a fee of a positive amount. *)
Definition paid (stream : Stream) : Prop :=
  exists fee, Stream_Fee stream = Some fee /\ Amount fee > 0.

Definition isHttpGet (ev : event) : Prop :=
  match ev with
  | HttpGet _ => True
  | Resolved _ => False
  end.

(** ** The caller of [Read] and [Seek]

    The range-serving facility drives the handle through a sequence of
    [Seek] and [Read] calls; a panic ends the sequence. *)
Inductive call : Type :=
| CallSeek (offset whence : Z)
| CallRead (p : list byte).

Definition perform (W : World) (c : call) (m : machine)
    : option runtimeError * machine :=
  match c with
  | CallSeek offset whence =>
      match Seek offset whence m with
      | (Returns _, m') => (None, m')
      | (Panics e, m') => (Some e, m')
      end
  | CallRead p =>
      match Read W p m with
      | (Returns _, m') => (None, m')
      | (Panics e, m') => (Some e, m')
      end
  end.

Fixpoint drive (W : World) (cs : list call) (m : machine)
    : option runtimeError * machine :=
  match cs with
  | [] => (None, m)
  | c :: rest =>
      match perform W c m with
      | (None, m') => drive W rest m'
      | (Some e, m') => (Some e, m')
      end
  end.

Definition isRead (c : call) : bool :=
  match c with
  | CallRead _ => true
  | CallSeek _ _ => false
  end.

(** Two handles that differ in the cursor at most. *)
Definition sameButCursor (s s' : reflectedStream) : Prop :=
  URI s' = URI s /\ StartByte s' = StartByte s /\ EndByte s' = EndByte s /\
  SdHash s' = SdHash s /\ Size s' = Size s /\ ContentType s' = ContentType s /\
  SDBlob_ptr s' = SDBlob_ptr s.

(** A world with a blob size of 6, so that full blobs hold 5 bytes of
    plaintext: a stream of two full blobs. *)
Definition tinyBlob0 : BlobInfo := mkBlobInfo 6 0 [xaa] [x01].
Definition tinyBlob1 : BlobInfo := mkBlobInfo 6 1 [xbb] [x02].

Definition tinyGet (_ : list event) (url : string) : error + Response :=
  if String.eqb url "http://blobs.lbry.io/aa" then
    inr (mkResponse 200 "200 OK" (inr [x00; x01; x02; x03; x04]))
  else if String.eqb url "http://blobs.lbry.io/bb" then
    inr (mkResponse 200 "200 OK" (inr [x04; x03; x02; x01; x00]))
  else inr (mkResponse 404 "404 Not Found" (inr [])).

Definition tinyWorld : World :=
  mkWorld 6 demoResolve tinyGet
    (fun _ => inr (mkSDBlob [tinyBlob1; tinyBlob0] [x03]))
    (fun body _ _ => inr body)
    (@insertionSort BlobInfo).

Definition tinyStream (cursor : Z) : reflectedStream :=
  mkReflectedStream "lbry://free" 0 0 "aabb" 10 "video/mp4"
    (Some (mkSDBlob [tinyBlob0; tinyBlob1] [x03])) cursor.

(** * The users model (package [models])

    The generated model of the table [users]: the hook registry with
    [AddUserHook] and the nine [do...Hooks] methods, and the two delete
    operations that run hooks around one SQL statement.

    The package-level hook slices are the fields of a record
    [HookRegistry]; the database behind a [boil.Executor] is a state of an
    arbitrary type [D] next to the log of the statements executed through
    the executor.  A hook receives the executor and a pointer to the user:
    it is a function of the user and the database that returns both. *)

(** An [error] of this package: one made on the spot or one wrapped by
    [errors.Wrap] with a message. *)
Inductive dbError : Type :=
| db_New (text : string)
| db_Foreign (what : string)
| db_Wrap (cause : dbError) (message : string).

Inductive sqlValue : Type :=
| SqlInt (z : Z)
| SqlText (t : string).

(** [time.Time] is an instant counted as a number, [null.String] an
    optional string, the relationship pointer [R] an optional [userR]. *)
Record User : Type := mkUser {
  ID : Z;
  CreatedAt : Z;
  UpdatedAt : Z;
  SDKAccountID : option string;
  WalletID : string;
  R : option unit
}.

(** [sql.Result], as far as this package asks it. *)
Record sqlResult : Type := mkSqlResult {
  RowsAffected : dbError + Z
}.

Section Models.

Variable D : Type.

Record database : Type := mkDatabase {
  store : D;
  statements : list (string * list sqlValue)
}.

(** A [boil.Executor]: what [Exec] answers and does to the store. *)
Record Executor : Type := mkExecutor {
  Exec_answer : string -> list sqlValue -> D -> (dbError + sqlResult) * D
}.

Definition Exec (exec : Executor) (sql : string) (args : list sqlValue)
    (db : database) : (dbError + sqlResult) * database :=
  let (r, st) := Exec_answer exec sql args (store db) in
  (r, mkDatabase st (statements db ++ [(sql, args)])).

Definition UserHook : Type :=
  Executor -> User -> database -> option dbError * User * database.

Inductive HookPoint : Type :=
| BeforeInsertHook
| BeforeUpdateHook
| BeforeDeleteHook
| BeforeUpsertHook
| AfterInsertHook
| AfterSelectHook
| AfterUpdateHook
| AfterDeleteHook
| AfterUpsertHook
| otherHookPoint (n : Z).

Record HookRegistry : Type := mkHookRegistry {
  userBeforeInsertHooks : list UserHook;
  userBeforeUpdateHooks : list UserHook;
  userBeforeDeleteHooks : list UserHook;
  userBeforeUpsertHooks : list UserHook;
  userAfterInsertHooks : list UserHook;
  userAfterSelectHooks : list UserHook;
  userAfterUpdateHooks : list UserHook;
  userAfterDeleteHooks : list UserHook;
  userAfterUpsertHooks : list UserHook
}.

(** The loop shared by the nine [do...Hooks] methods:
    [for _, hook := range hooks { if err := hook(exec, o); err != nil { return err } }]. *)
Fixpoint rangeHooks (hooks : list UserHook) (exec : Executor) (o : User)
    (db : database) : option dbError * User * database :=
  match hooks with
  | [] => (None, o, db)
  | hook :: rest =>
      match hook exec o db with
      | (Some err, o', db') => (Some err, o', db')
      | (None, o', db') => rangeHooks rest exec o' db'
      end
  end.

Definition doBeforeInsertHooks (reg : HookRegistry) := rangeHooks (userBeforeInsertHooks reg).
Definition doBeforeUpdateHooks (reg : HookRegistry) := rangeHooks (userBeforeUpdateHooks reg).
Definition doBeforeDeleteHooks (reg : HookRegistry) := rangeHooks (userBeforeDeleteHooks reg).
Definition doBeforeUpsertHooks (reg : HookRegistry) := rangeHooks (userBeforeUpsertHooks reg).
Definition doAfterInsertHooks (reg : HookRegistry) := rangeHooks (userAfterInsertHooks reg).
Definition doAfterSelectHooks (reg : HookRegistry) := rangeHooks (userAfterSelectHooks reg).
Definition doAfterUpdateHooks (reg : HookRegistry) := rangeHooks (userAfterUpdateHooks reg).
Definition doAfterDeleteHooks (reg : HookRegistry) := rangeHooks (userAfterDeleteHooks reg).
Definition doAfterUpsertHooks (reg : HookRegistry) := rangeHooks (userAfterUpsertHooks reg).

(** [AddUserHook] registers a hook for all future operations. *)
Definition AddUserHook (hookPoint : HookPoint) (userHook : UserHook)
    (reg : HookRegistry) : HookRegistry :=
  match hookPoint with
  | BeforeInsertHook =>
      mkHookRegistry (userBeforeInsertHooks reg ++ [userHook]) (userBeforeUpdateHooks reg)
        (userBeforeDeleteHooks reg) (userBeforeUpsertHooks reg) (userAfterInsertHooks reg)
        (userAfterSelectHooks reg) (userAfterUpdateHooks reg) (userAfterDeleteHooks reg)
        (userAfterUpsertHooks reg)
  | BeforeUpdateHook =>
      mkHookRegistry (userBeforeInsertHooks reg) (userBeforeUpdateHooks reg ++ [userHook])
        (userBeforeDeleteHooks reg) (userBeforeUpsertHooks reg) (userAfterInsertHooks reg)
        (userAfterSelectHooks reg) (userAfterUpdateHooks reg) (userAfterDeleteHooks reg)
        (userAfterUpsertHooks reg)
  | BeforeDeleteHook =>
      mkHookRegistry (userBeforeInsertHooks reg) (userBeforeUpdateHooks reg)
        (userBeforeDeleteHooks reg ++ [userHook]) (userBeforeUpsertHooks reg)
        (userAfterInsertHooks reg) (userAfterSelectHooks reg) (userAfterUpdateHooks reg)
        (userAfterDeleteHooks reg) (userAfterUpsertHooks reg)
  | BeforeUpsertHook =>
      mkHookRegistry (userBeforeInsertHooks reg) (userBeforeUpdateHooks reg)
        (userBeforeDeleteHooks reg) (userBeforeUpsertHooks reg ++ [userHook])
        (userAfterInsertHooks reg) (userAfterSelectHooks reg) (userAfterUpdateHooks reg)
        (userAfterDeleteHooks reg) (userAfterUpsertHooks reg)
  | AfterInsertHook =>
      mkHookRegistry (userBeforeInsertHooks reg) (userBeforeUpdateHooks reg)
        (userBeforeDeleteHooks reg) (userBeforeUpsertHooks reg)
        (userAfterInsertHooks reg ++ [userHook]) (userAfterSelectHooks reg)
        (userAfterUpdateHooks reg) (userAfterDeleteHooks reg) (userAfterUpsertHooks reg)
  | AfterSelectHook =>
      mkHookRegistry (userBeforeInsertHooks reg) (userBeforeUpdateHooks reg)
        (userBeforeDeleteHooks reg) (userBeforeUpsertHooks reg) (userAfterInsertHooks reg)
        (userAfterSelectHooks reg ++ [userHook]) (userAfterUpdateHooks reg)
        (userAfterDeleteHooks reg) (userAfterUpsertHooks reg)
  | AfterUpdateHook =>
      mkHookRegistry (userBeforeInsertHooks reg) (userBeforeUpdateHooks reg)
        (userBeforeDeleteHooks reg) (userBeforeUpsertHooks reg) (userAfterInsertHooks reg)
        (userAfterSelectHooks reg) (userAfterUpdateHooks reg ++ [userHook])
        (userAfterDeleteHooks reg) (userAfterUpsertHooks reg)
  | AfterDeleteHook =>
      mkHookRegistry (userBeforeInsertHooks reg) (userBeforeUpdateHooks reg)
        (userBeforeDeleteHooks reg) (userBeforeUpsertHooks reg) (userAfterInsertHooks reg)
        (userAfterSelectHooks reg) (userAfterUpdateHooks reg)
        (userAfterDeleteHooks reg ++ [userHook]) (userAfterUpsertHooks reg)
  | AfterUpsertHook =>
      mkHookRegistry (userBeforeInsertHooks reg) (userBeforeUpdateHooks reg)
        (userBeforeDeleteHooks reg) (userBeforeUpsertHooks reg) (userAfterInsertHooks reg)
        (userAfterSelectHooks reg) (userAfterUpdateHooks reg) (userAfterDeleteHooks reg)
        (userAfterUpsertHooks reg ++ [userHook])
  | otherHookPoint _ => reg
  end.

(** The values of the primary key of a user, which the source takes from
    [queries.ValuesFromMapping] with the mapping of the column [id]. *)
Definition primaryKeyValues (o : User) : list sqlValue := [SqlInt (ID o)].

Definition dq : string := String (Ascii.ascii_of_nat 34) EmptyString.

(** The statement of [Delete]: DELETE FROM "users" WHERE "id"=$1. *)
Definition deleteUserSQL : string :=
  String.append "DELETE FROM "
    (String.append dq (String.append "users" (String.append dq
       (String.append " WHERE " (String.append dq (String.append "id"
          (String.append dq "=$1"))))))).

(** [Delete] deletes a single user with an executor; the receiver is a
    pointer that may be nil.  The result is the pair [(rows, err)] with the
    user and the database as the call leaves them. *)
Definition Delete (reg : HookRegistry) (exec : Executor) (o : option User)
    (db : database) : (Z * option dbError) * option User * database :=
  match o with
  | None => ((0, Some (db_New "models: no User provided for delete")), None, db)
  | Some o =>
      match doBeforeDeleteHooks reg exec o db with
      | (Some err, o, db) => ((0, Some err), Some o, db)
      | (None, o, db) =>
          let args := primaryKeyValues o in
          match Exec exec deleteUserSQL args db with
          | (inl err, db) =>
              ((0, Some (db_Wrap err "models: unable to delete from users")), Some o, db)
          | (inr result, db) =>
              match RowsAffected result with
              | inl err =>
                  ((0, Some (db_Wrap err
                               "models: failed to get rows affected by delete for users")),
                   Some o, db)
              | inr rowsAff =>
                  match doAfterDeleteHooks reg exec o db with
                  | (Some err, o, db) => ((0, Some err), Some o, db)
                  | (None, o, db) => ((rowsAff, None), Some o, db)
                  end
              end
          end
      end
  end.

(** A [UserSlice] is a slice of pointers to users.  The users live in a
    heap, a pointer that is not nil is the address of its user, and the
    slice is the list of these addresses: the same address may occur more
    than once, so what a hook writes through one element is seen through
    every other element that points to the same user.  (A nil element has
    no address: slices with a nil element are outside this model.) *)
Definition heap : Type := nat -> User.

Definition poke (h : heap) (a : nat) (u : User) : heap :=
  fun b => if Nat.eqb b a then u else h b.

(** One of the two hook loops of [DeleteAll] over the slice:
    [for _, obj := range o { if err := obj.do...Hooks(exec); err != nil { return 0, err } }].
    The hooks read and write the user [obj] points to. *)
Fixpoint rangeUsers (hooks : list UserHook) (exec : Executor) (o : list nat)
    (h : heap) (db : database) : option dbError * heap * database :=
  match o with
  | [] => (None, h, db)
  | obj :: rest =>
      match rangeHooks hooks exec (h obj) db with
      | (Some err, u, db') => (Some err, poke h obj u, db')
      | (None, u, db') => rangeUsers hooks exec rest (poke h obj u) db'
      end
  end.

(** [strmangle.WhereClauseRepeated] for the primary key, a function of the
    number of users. *)
Variable WhereClauseRepeated : nat -> string.

Definition deleteUsersSQL (n : nat) : string :=
  String.append "DELETE FROM "
    (String.append dq (String.append "users" (String.append dq
       (String.append " WHERE " (WhereClauseRepeated n))))).

(** [DeleteAll] deletes all rows in the slice, using an executor.  The
    primary keys are read through the pointers after the before-delete
    hooks have run. *)
Definition DeleteAll (reg : HookRegistry) (exec : Executor) (o : list nat)
    (h : heap) (db : database) : (Z * option dbError) * heap * database :=
  if (len o =? 0) then ((0, None), h, db)
  else
    match (if negb (len (userBeforeDeleteHooks reg) =? 0)
           then rangeUsers (userBeforeDeleteHooks reg) exec o h db
           else (None, h, db)) with
    | (Some err, h, db) => ((0, Some err), h, db)
    | (None, h, db) =>
        let args := flat_map (fun obj => primaryKeyValues (h obj)) o in
        match Exec exec (deleteUsersSQL (List.length o)) args db with
        | (inl err, db) =>
            ((0, Some (db_Wrap err "models: unable to delete all from user slice")), h, db)
        | (inr result, db) =>
            match RowsAffected result with
            | inl err =>
                ((0, Some (db_Wrap err
                             "models: failed to get rows affected by deleteall for users")),
                 h, db)
            | inr rowsAff =>
                match (if negb (len (userAfterDeleteHooks reg) =? 0)
                       then rangeUsers (userAfterDeleteHooks reg) exec o h db
                       else (None, h, db)) with
                | (Some err, h, db) => ((0, Some err), h, db)
                | (None, h, db) => ((rowsAff, None), h, db)
                end
            end
        end
    end.

(** The hooks registered for a hook point. *)
Definition hooksAt (hookPoint : HookPoint) (reg : HookRegistry) : list UserHook :=
  match hookPoint with
  | BeforeInsertHook => userBeforeInsertHooks reg
  | BeforeUpdateHook => userBeforeUpdateHooks reg
  | BeforeDeleteHook => userBeforeDeleteHooks reg
  | BeforeUpsertHook => userBeforeUpsertHooks reg
  | AfterInsertHook => userAfterInsertHooks reg
  | AfterSelectHook => userAfterSelectHooks reg
  | AfterUpdateHook => userAfterUpdateHooks reg
  | AfterDeleteHook => userAfterDeleteHooks reg
  | AfterUpsertHook => userAfterUpsertHooks reg
  | otherHookPoint _ => []
  end.

(** The [do...Hooks] method of a hook point. *)
Definition doHooksAt (hookPoint : HookPoint) (reg : HookRegistry)
    : Executor -> User -> database -> option dbError * User * database :=
  match hookPoint with
  | BeforeInsertHook => doBeforeInsertHooks reg
  | BeforeUpdateHook => doBeforeUpdateHooks reg
  | BeforeDeleteHook => doBeforeDeleteHooks reg
  | BeforeUpsertHook => doBeforeUpsertHooks reg
  | AfterInsertHook => doAfterInsertHooks reg
  | AfterSelectHook => doAfterSelectHooks reg
  | AfterUpdateHook => doAfterUpdateHooks reg
  | AfterDeleteHook => doAfterDeleteHooks reg
  | AfterUpsertHook => doAfterUpsertHooks reg
  | otherHookPoint _ => fun _ o db => (None, o, db)
  end.

Definition sameHookPoint (a b : HookPoint) : bool :=
  match a, b with
  | BeforeInsertHook, BeforeInsertHook
  | BeforeUpdateHook, BeforeUpdateHook
  | BeforeDeleteHook, BeforeDeleteHook
  | BeforeUpsertHook, BeforeUpsertHook
  | AfterInsertHook, AfterInsertHook
  | AfterSelectHook, AfterSelectHook
  | AfterUpdateHook, AfterUpdateHook
  | AfterDeleteHook, AfterDeleteHook
  | AfterUpsertHook, AfterUpsertHook => true
  | _, _ => false
  end.

End Models.

Arguments mkDatabase {D} store statements.
Arguments store {D} d.
Arguments statements {D} d.
Arguments mkExecutor {D} Exec_answer.
Arguments userBeforeInsertHooks {D} h.
Arguments userBeforeUpdateHooks {D} h.
Arguments userBeforeDeleteHooks {D} h.
Arguments userBeforeUpsertHooks {D} h.
Arguments userAfterInsertHooks {D} h.
Arguments userAfterSelectHooks {D} h.
Arguments userAfterUpdateHooks {D} h.
Arguments userAfterDeleteHooks {D} h.
Arguments userAfterUpsertHooks {D} h.

(** A database that counts the rows of [users], an executor whose DELETE
    removes one row, a hook that stamps the user and a hook that fails. *)
Definition countingExec : Executor nat :=
  mkExecutor (fun _ _ rows => (inr (mkSqlResult (inr 1)), Nat.pred rows)).

Definition stampHook : UserHook nat :=
  fun _ o db => (None, mkUser (ID o) (CreatedAt o) 7 (SDKAccountID o) (WalletID o) (R o), db).

Definition refuseHook : UserHook nat :=
  fun _ o db => (Some (db_New "refused"), o, db).

(** A hook that moves the user to the next id. *)
Definition bumpHook : UserHook nat :=
  fun _ o db =>
    (None, mkUser (add64 (ID o) 1) (CreatedAt o) (UpdatedAt o) (SDKAccountID o) (WalletID o) (R o),
     db).

Definition noHooks : HookRegistry nat := mkHookRegistry nat [] [] [] [] [] [] [] [] [].

Definition demoUser : User := mkUser 4 0 0 None "wallet" None.

(** A heap with [demoUser] at every address. *)
Definition demoHeap : heap := fun _ => demoUser.

(** * Properties *)

(** ** 64-bit arithmetic *)

Lemma wrap64_id (z : Z) : int64_range z -> wrap64 z = z.
Proof.
  unfold int64_range, min_int64, max_int64, wrap64. intros H.
  rewrite Z.mod_small; lia.
Qed.

Lemma wrap64_range (z : Z) : int64_range (wrap64 z).
Proof.
  unfold int64_range, min_int64, max_int64, wrap64.
  pose proof (Z.mod_pos_bound (z + 2 ^ 63) (2 ^ 64) ltac:(lia)). lia.
Qed.

Lemma wrap64_add_l (a b : Z) : wrap64 (wrap64 a + b) = wrap64 (a + b).
Proof.
  unfold wrap64. f_equal.
  replace ((a + 2 ^ 63) mod 2 ^ 64 - 2 ^ 63 + b + 2 ^ 63)
    with ((a + 2 ^ 63) mod 2 ^ 64 + b) by lia.
  rewrite Zplus_mod_idemp_l. f_equal. lia.
Qed.

Lemma wrap64_sub_l (a b : Z) : wrap64 (wrap64 a - b) = wrap64 (a - b).
Proof. unfold Z.sub. apply wrap64_add_l. Qed.

Lemma wrap64_sub_r (a b : Z) : wrap64 (a - wrap64 b) = wrap64 (a - b).
Proof.
  unfold wrap64. f_equal.
  replace (a - ((b + 2 ^ 63) mod 2 ^ 64 - 2 ^ 63) + 2 ^ 63)
    with (a + 2 ^ 64 - (b + 2 ^ 63) mod 2 ^ 64) by lia.
  rewrite Zminus_mod_idemp_r. f_equal. lia.
Qed.

Lemma add64_0_r (a : Z) : int64_range a -> add64 a 0 = a.
Proof. intros H. unfold add64. rewrite Z.add_0_r. now apply wrap64_id. Qed.

Lemma add64_0_l (a : Z) : int64_range a -> add64 0 a = a.
Proof. intros H. unfold add64. now apply wrap64_id. Qed.

Lemma len_range_nonneg {A : Type} (l : list A) : 0 <= len l.
Proof. unfold len. lia. Qed.

(** ** Offset arithmetic of [Read] *)

Lemma Read_blobNum_floor (W : World) (c : Z) :
  MaxBlobSize_ok W -> 0 <= c <= max_int64 ->
  Read_blobNum W c = c / (MaxBlobSize W - 2).
Proof.
  unfold MaxBlobSize_ok, Read_blobNum, quo64. intros HM Hc.
  rewrite Z.quot_div_nonneg by lia.
  apply wrap64_id. unfold int64_range, min_int64 in *.
  assert (0 <= c / (MaxBlobSize W - 2)) by (apply Z.div_pos; lia).
  assert (c / (MaxBlobSize W - 2) <= c) by (apply Z.div_le_upper_bound; nia).
  lia.
Qed.

(** The three wrapped operations of the offset formula cancel: the
    product may overflow, the offset does not. *)
Lemma Read_startOffsetInBlob_exact (W : World) (c : Z) :
  MaxBlobSize_ok W -> 0 <= c <= max_int64 ->
  let blobNum := c / (MaxBlobSize W - 2) in
  Read_startOffsetInBlob W c =
    if blobNum =? 0 then c - blobNum * MaxBlobSize W
    else c - blobNum * MaxBlobSize W + blobNum.
Proof.
  intros HM Hc blobNum. unfold Read_startOffsetInBlob.
  rewrite Read_blobNum_floor by assumption. fold blobNum.
  assert (Hdm : c = (MaxBlobSize W - 2) * blobNum + c mod (MaxBlobSize W - 2))
    by (apply Z.div_mod; unfold MaxBlobSize_ok in HM; lia).
  assert (Hr : 0 <= c mod (MaxBlobSize W - 2) < MaxBlobSize W - 2)
    by (apply Z.mod_pos_bound; unfold MaxBlobSize_ok in HM; lia).
  assert (Hb : 0 <= blobNum)
    by (apply Z.div_pos; unfold MaxBlobSize_ok in HM; lia).
  unfold MaxBlobSize_ok, max_int64 in *.
  destruct (blobNum =? 0) eqn:E.
  - apply Z.eqb_eq in E. rewrite E. unfold sub64, mul64. simpl.
    rewrite (wrap64_id 0) by (unfold int64_range, min_int64, max_int64; lia).
    rewrite Z.sub_0_r. apply wrap64_id.
    unfold int64_range, min_int64, max_int64. lia.
  - unfold add64, sub64, mul64.
    rewrite wrap64_add_l.
    replace (c - wrap64 (blobNum * MaxBlobSize W) + blobNum)
      with (c + blobNum - wrap64 (blobNum * MaxBlobSize W)) by lia.
    rewrite wrap64_sub_r.
    replace (c + blobNum - blobNum * MaxBlobSize W)
      with (c - blobNum * MaxBlobSize W + blobNum) by lia.
    apply wrap64_id. unfold int64_range, min_int64, max_int64. nia.
Qed.

(** C1. A [Read] at a cursor [c >= 0] addresses blob
    [floor(c / (MaxBlobSize - 2))] and starts inside it at
    [c - blobNum * MaxBlobSize] when [blobNum = 0] and at
    [c - blobNum * MaxBlobSize + blobNum] when [blobNum > 0]: these are the
    two arguments [Read] hands to [streamBlob]. *)
Theorem Read_addresses_blob (W : World) (p : list byte) (m : machine) :
  MaxBlobSize_ok W ->
  0 <= seekOffset (self m) <= max_int64 ->
  let c := seekOffset (self m) in
  let blobNum := c / (MaxBlobSize W - 2) in
  exists startOffsetInBlob,
    Read W p m = (r <- streamBlob W blobNum startOffsetInBlob p ;; Read_advance r) m /\
    (blobNum = 0 -> startOffsetInBlob = c - blobNum * MaxBlobSize W) /\
    (blobNum > 0 -> startOffsetInBlob = c - blobNum * MaxBlobSize W + blobNum).
Proof.
  intros HM Hc c blobNum.
  exists (Read_startOffsetInBlob W c). split.
  - unfold Read, bind at 1, this. fold c.
    rewrite (Read_blobNum_floor W c HM Hc). reflexivity.
  - rewrite (Read_startOffsetInBlob_exact W c HM Hc). fold blobNum.
    split; intros Hb.
    + rewrite Hb. reflexivity.
    + destruct (blobNum =? 0) eqn:E; [apply Z.eqb_eq in E; lia | reflexivity].
Qed.

Lemma Read_addresses_blob_witness :
  exists startOffsetInBlob,
    Read demoWorld [x00] (mkMachine (demoStream 4194305) []) =
      (r <- streamBlob demoWorld 2 startOffsetInBlob [x00] ;; Read_advance r)
        (mkMachine (demoStream 4194305) []) /\
    (2 = 0 -> startOffsetInBlob = 4194305 - 2 * 2097152) /\
    (2 > 0 -> startOffsetInBlob = 4194305 - 2 * 2097152 + 2).
Proof.
  apply (Read_addresses_blob demoWorld [x00] (mkMachine (demoStream 4194305) [])).
  - unfold MaxBlobSize_ok, max_int64. simpl. lia.
  - unfold max_int64. simpl. lia.
Defined.

(** ** Seek *)

Lemma Seek_unfold (offset whence : Z) (m : machine) :
  Seek offset whence m =
    match Seek_newSeekOffset (self m) offset whence with
    | None => (Returns (0, Some InvalidWhenceError), m)
    | Some v =>
        if 0 >? v then (Returns (0, Some NegativeSeekError), m)
        else (Returns (v, None), moved v m)
    end.
Proof.
  unfold Seek, bind, this.
  destruct (Seek_newSeekOffset (self m) offset whence) as [v|]; [|reflexivity].
  destruct (0 >? v); reflexivity.
Qed.

Lemma Seek_to (offset whence v : Z) (m : machine) :
  Seek_newSeekOffset (self m) offset whence = Some v -> 0 <= v ->
  Seek offset whence m = (Returns (v, None), moved v m).
Proof.
  intros Hv Hpos. rewrite Seek_unfold, Hv.
  destruct (0 >? v) eqn:E; [apply Z.gtb_lt in E; lia | reflexivity].
Qed.

(** C3. A seek whose target is not negative sets the cursor to the target
    and returns it: [offset] from the start, [Size - offset] from the end,
    [cursor + offset] from the current position (the differences and sums
    are those of [int64], and are exact whenever the exact value fits).
    The target is not compared with [Size]: a target beyond it succeeds.
    Seeking to [Size] from the start and then by [0] from the current
    position returns [Size]. *)
Theorem Seek_sets_cursor (offset : Z) (m : machine) :
  let s := self m in
  (0 <= offset ->
     Seek offset io_SeekStart m = (Returns (offset, None), moved offset m)) /\
  (0 <= sub64 (Size s) offset ->
     Seek offset io_SeekEnd m =
       (Returns (sub64 (Size s) offset, None), moved (sub64 (Size s) offset) m)) /\
  (0 <= Size s - offset <= max_int64 ->
     Seek offset io_SeekEnd m =
       (Returns (Size s - offset, None), moved (Size s - offset) m)) /\
  (0 <= add64 (seekOffset s) offset ->
     Seek offset io_SeekCurrent m =
       (Returns (add64 (seekOffset s) offset, None),
        moved (add64 (seekOffset s) offset) m)) /\
  (0 <= seekOffset s + offset <= max_int64 ->
     Seek offset io_SeekCurrent m =
       (Returns (seekOffset s + offset, None), moved (seekOffset s + offset) m)) /\
  (0 <= offset -> Size s < offset ->
     exists m', Seek offset io_SeekStart m = (Returns (offset, None), m') /\
                seekOffset (self m') = offset /\ Size (self m') < seekOffset (self m')) /\
  (0 <= Size s <= max_int64 ->
     (Seek (Size s) io_SeekStart ;; Seek 0 io_SeekCurrent) m =
       (Returns (Size s, None), moved (Size s) m)).
Proof.
  intros s.
  assert (Hexact : forall z, 0 <= z <= max_int64 -> wrap64 z = z).
  { intros z Hz. apply wrap64_id. unfold int64_range, min_int64, max_int64 in *. lia. }
  repeat split.
  - intros H. now apply Seek_to.
  - intros H. now apply Seek_to.
  - intros H. apply Seek_to; [|lia].
    unfold Seek_newSeekOffset, sub64. simpl. fold s. now rewrite Hexact.
  - intros H. now apply Seek_to.
  - intros H. apply Seek_to; [|lia].
    unfold Seek_newSeekOffset, add64. simpl. fold s. now rewrite Hexact.
  - intros H Hpast. exists (moved offset m). repeat split.
    + now apply Seek_to.
    + simpl. fold s. lia.
  - intros H. unfold bind at 1. rewrite (Seek_to (Size s) io_SeekStart (Size s)) by (reflexivity || lia).
    rewrite (Seek_to 0 io_SeekCurrent (Size s)).
    + reflexivity.
    + unfold Seek_newSeekOffset, add64. simpl. rewrite Z.add_0_r. now rewrite Hexact.
    + lia.
Qed.

Lemma Seek_sets_cursor_witness :
  let m := mkMachine (demoStream 5) [] in
  Seek 10 io_SeekStart m = (Returns (10, None), moved 10 m) /\
  Seek 10 io_SeekEnd m = (Returns (2097184 - 10, None), moved (2097184 - 10) m) /\
  Seek 10 io_SeekCurrent m = (Returns (5 + 10, None), moved (5 + 10) m) /\
  (exists m', Seek 3000000 io_SeekStart m = (Returns (3000000, None), m') /\
              seekOffset (self m') = 3000000 /\
              Size (self m') < seekOffset (self m')) /\
  (Seek 2097184 io_SeekStart ;; Seek 0 io_SeekCurrent) m =
    (Returns (2097184, None), moved 2097184 m).
Proof.
  intros m.
  destruct (Seek_sets_cursor 10 m) as (HS & _ & HE & _ & HC & _ & HR).
  destruct (Seek_sets_cursor 3000000 m) as (_ & _ & _ & _ & _ & HP & _).
  split; [|split; [|split; [|split]]].
  - apply HS. lia.
  - apply HE. unfold max_int64. simpl. lia.
  - apply HC. unfold max_int64. simpl. lia.
  - apply HP; simpl; lia.
  - apply HR. unfold max_int64. simpl. lia.
Defined.

Lemma Seek_newSeekOffset_None (s : reflectedStream) (offset whence : Z) :
  Seek_newSeekOffset s offset whence = None <->
  whence <> io_SeekStart /\ whence <> io_SeekEnd /\ whence <> io_SeekCurrent.
Proof.
  unfold Seek_newSeekOffset.
  destruct (whence =? io_SeekEnd) eqn:E2;
    [apply Z.eqb_eq in E2 | apply Z.eqb_neq in E2].
  { split; [discriminate | tauto]. }
  destruct (whence =? io_SeekStart) eqn:E0;
    [apply Z.eqb_eq in E0 | apply Z.eqb_neq in E0].
  { split; [discriminate | tauto]. }
  destruct (whence =? io_SeekCurrent) eqn:E1;
    [apply Z.eqb_eq in E1 | apply Z.eqb_neq in E1].
  { split; [discriminate | tauto]. }
  tauto.
Qed.

(** C7. A seek whose target is negative fails with [NegativeSeekError], a
    seek whose [whence] is none of start, end, current fails with
    [InvalidWhenceError], and either failure leaves the handle, the
    cursor with it, as it was. *)
Theorem Seek_failures (offset whence : Z) (m : machine) :
  (forall v, Seek_newSeekOffset (self m) offset whence = Some v -> v < 0 ->
     Seek offset whence m = (Returns (0, Some NegativeSeekError), m)) /\
  (whence <> io_SeekStart -> whence <> io_SeekEnd -> whence <> io_SeekCurrent ->
     Seek offset whence m = (Returns (0, Some InvalidWhenceError), m)) /\
  (forall r e m', Seek offset whence m = (Returns (r, Some e), m') ->
     seekOffset (self m') = seekOffset (self m) /\
     (e = NegativeSeekError \/ e = InvalidWhenceError)).
Proof.
  repeat split.
  - intros v Hv Hneg. rewrite Seek_unfold, Hv.
    destruct (0 >? v) eqn:E; [reflexivity | rewrite Z.gtb_ltb in E; apply Z.ltb_ge in E; lia].
  - intros H0 H2 H1. rewrite Seek_unfold.
    replace (Seek_newSeekOffset (self m) offset whence) with (@None Z); [reflexivity|].
    symmetry. now apply Seek_newSeekOffset_None.
  - rewrite Seek_unfold in H.
    destruct (Seek_newSeekOffset (self m) offset whence) as [v|].
    + destruct (0 >? v); inversion H; subst; reflexivity.
    + inversion H; subst; reflexivity.
  - rewrite Seek_unfold in H.
    destruct (Seek_newSeekOffset (self m) offset whence) as [v|].
    + destruct (0 >? v); inversion H; subst; auto.
    + inversion H; subst; auto.
Qed.

Lemma Seek_failures_witness :
  let m := mkMachine (demoStream 5) [] in
  Seek (-1) io_SeekStart m = (Returns (0, Some NegativeSeekError), m) /\
  Seek 2097185 io_SeekEnd m = (Returns (0, Some NegativeSeekError), m) /\
  Seek (-6) io_SeekCurrent m = (Returns (0, Some NegativeSeekError), m) /\
  Seek 0 3 m = (Returns (0, Some InvalidWhenceError), m).
Proof.
  intros m.
  destruct (Seek_failures (-1) io_SeekStart m) as (HS & _ & _).
  destruct (Seek_failures 2097185 io_SeekEnd m) as (HE & _ & _).
  destruct (Seek_failures (-6) io_SeekCurrent m) as (HC & _ & _).
  destruct (Seek_failures 0 3 m) as (_ & HW & _).
  split; [|split; [|split]].
  - apply (HS (-1)); [reflexivity | lia].
  - apply (HE (-1)); [reflexivity | lia].
  - apply (HC (-1)); [reflexivity | lia].
  - apply HW; unfold io_SeekStart, io_SeekEnd, io_SeekCurrent; lia.
Defined.

(** ** Read, case by case *)

(** Every path through [Read] and [streamBlob], in the order the source
    takes them. *)
Lemma Read_unfold (W : World) (p : list byte) (m : machine) :
  Read W p m =
    let c := seekOffset (self m) in
    let b := Read_blobNum W c in
    let o := Read_startOffsetInBlob W c in
    match SDBlob_ptr (self m) with
    | None => (Panics NilPointerDereference, m)
    | Some sdb =>
        if (0 <=? b) && (b <? len (BlobInfos sdb)) then
          match nth_error (BlobInfos sdb) (Z.to_nat b) with
          | None => (Panics (IndexOutOfRange b (len (BlobInfos sdb))), m)
          | Some bi =>
              let m1 := fetched (blobInfoURL bi) m in
              match http_Get_answer W (calls m) (blobInfoURL bi) with
              | inl err => (Returns (0, Some err, p), advanced 0 m1)
              | inr resp =>
                  if StatusCode resp =? http_StatusOK then
                    match Body resp with
                    | inl err => (Returns (0, Some err, p), advanced 0 m1)
                    | inr enc =>
                        match DecryptBlob W enc (Key sdb) (IV bi) with
                        | inl err => (Returns (0, Some err, p), advanced 0 m1)
                        | inr dec =>
                            let e0 := add64 (len p) o in
                            let e := if e0 >? len dec then len dec else e0 in
                            if (0 <=? o) && (o <=? e) && (e <=? len dec) then
                              let part := firstn (Z.to_nat (e - o)) (skipn (Z.to_nat o) dec) in
                              let n := add64 0 (snd (copy p part)) in
                              (Returns (n, None, fst (copy p part)), advanced n m1)
                            else (Panics (SliceBoundsOutOfRange o e), m1)
                        end
                    end
                  else (Returns (0, Some (BlobFetchError resp), p), advanced 0 m1)
              end
          end
        else (Panics (IndexOutOfRange b (len (BlobInfos sdb))), m)
    end.
Proof.
  unfold Read, streamBlob, bind, this, deref, index, http_Get, slice, ret, panic,
    Read_advance, update, bind, ret, advanced, fetched, BlobFetchError.
  cbv zeta.
  destruct (SDBlob_ptr (self m)) as [sdb|]; [|reflexivity].
  destruct ((0 <=? Read_blobNum W (seekOffset (self m))) &&
            (Read_blobNum W (seekOffset (self m)) <? len (BlobInfos sdb)));
    [|reflexivity].
  destruct (nth_error (BlobInfos sdb) (Z.to_nat (Read_blobNum W (seekOffset (self m)))))
    as [bi|]; [|reflexivity].
  change (0 >? 0) with false. cbv iota.
  destruct (http_Get_answer W (calls m) (blobInfoURL bi)) as [err|resp]; [reflexivity|].
  destruct (StatusCode resp =? http_StatusOK); [|reflexivity].
  destruct (Body resp) as [err|enc]; [reflexivity|].
  destruct (DecryptBlob W enc (Key sdb) (IV bi)) as [err|dec]; [reflexivity|].
  match goal with |- context [if ?c then _ else _] => destruct c end; [|reflexivity].
  match goal with |- context [copy ?a ?b] => destruct (copy a b) as [dest' thisN] end.
  reflexivity.
Qed.

Lemma index_in_range {A : Type} (l : list A) (b : Z) (x : A) :
  0 <= b -> nth_error l (Z.to_nat b) = Some x ->
  (0 <=? b) && (b <? len l) = true.
Proof.
  intros Hb Hx.
  assert (Hlt : (Z.to_nat b < List.length l)%nat)
    by (apply nth_error_Some; congruence).
  apply andb_true_intro. split; [apply Z.leb_le; lia|].
  apply Z.ltb_lt. unfold len. lia.
Qed.

(** The copy at the end of [streamBlob], when the bounds are in order:
    the range [dec[o:e]] fits the buffer and is written at its start. *)
Lemma copy_slice (p dec : list byte) (o e : Z) :
  0 <= o <= e -> e <= len dec -> e - o <= len p ->
  copy p (firstn (Z.to_nat (e - o)) (skipn (Z.to_nat o) dec)) =
    (firstn (Z.to_nat (e - o)) (skipn (Z.to_nat o) dec) ++ skipn (Z.to_nat (e - o)) p,
     e - o).
Proof.
  unfold len, copy. intros Ho He Hp.
  assert (Hlen : List.length (firstn (Z.to_nat (e - o)) (skipn (Z.to_nat o) dec))
                 = Z.to_nat (e - o)).
  { rewrite length_firstn, length_skipn. lia. }
  rewrite Hlen.
  replace (Nat.min (List.length p) (Z.to_nat (e - o))) with (Z.to_nat (e - o)) by lia.
  rewrite firstn_all2 by lia.
  f_equal. lia.
Qed.

(** The successful path of [Read]. *)
Lemma Read_ok (W : World) (p : list byte) (m : machine)
    (sdb : SDBlob) (bi : BlobInfo) (resp : Response) (enc dec : list byte) :
  let c := seekOffset (self m) in
  let b := Read_blobNum W c in
  let o := Read_startOffsetInBlob W c in
  let n := Z.min (o + len p) (len dec) - o in
  SDBlob_ptr (self m) = Some sdb ->
  0 <= b -> nth_error (BlobInfos sdb) (Z.to_nat b) = Some bi ->
  http_Get_answer W (calls m) (blobInfoURL bi) = inr resp ->
  StatusCode resp = http_StatusOK ->
  Body resp = inr enc ->
  DecryptBlob W enc (Key sdb) (IV bi) = inr dec ->
  0 <= o <= len dec ->
  o + len p <= max_int64 ->
  Read W p m =
    (Returns (n, None,
              firstn (Z.to_nat n) (skipn (Z.to_nat o) dec) ++ skipn (Z.to_nat n) p),
     advanced n (fetched (blobInfoURL bi) m)).
Proof.
  intros c b o n Hsd Hb Hbi Hget Hst Hbody Hdec Ho Hfit.
  rewrite Read_unfold. cbv zeta. fold c. fold b. fold o.
  rewrite Hsd, (index_in_range _ _ _ Hb Hbi), Hbi, Hget, Hst, Z.eqb_refl, Hbody, Hdec.
  pose proof (len_range_nonneg p) as Hp.
  assert (He0 : add64 (len p) o = o + len p).
  { unfold add64. rewrite Z.add_comm. apply wrap64_id.
    unfold int64_range, min_int64. lia. }
  rewrite He0.
  assert (He : (if o + len p >? len dec then len dec else o + len p)
               = Z.min (o + len p) (len dec)).
  { destruct (o + len p >? len dec) eqn:E.
    - apply Z.gtb_lt in E. lia.
    - rewrite Z.gtb_ltb in E. apply Z.ltb_ge in E. lia. }
  rewrite He.
  replace ((0 <=? o) && (o <=? Z.min (o + len p) (len dec))
           && (Z.min (o + len p) (len dec) <=? len dec)) with true.
  2:{ symmetry. repeat (apply andb_true_intro; split); apply Z.leb_le; lia. }
  rewrite (copy_slice p dec o (Z.min (o + len p) (len dec))) by lia.
  simpl fst. simpl snd. fold n.
  rewrite add64_0_l by (unfold int64_range, min_int64, max_int64 in *; lia).
  reflexivity.
Qed.

Lemma wrap64_over (z : Z) :
  max_int64 < z <= 2 * max_int64 + 1 -> wrap64 z = z - 2 ^ 64.
Proof.
  unfold max_int64, wrap64. intros Hz.
  replace (z + 2 ^ 63) with (z - 2 ^ 63 + 1 * 2 ^ 64) by lia.
  rewrite Z.mod_add by lia. rewrite Z.mod_small; lia.
Qed.

Lemma Read_startOffsetInBlob_range (W : World) (c : Z) :
  int64_range (Read_startOffsetInBlob W c).
Proof.
  unfold Read_startOffsetInBlob.
  destruct (Read_blobNum W c =? 0); apply wrap64_range.
Qed.

(** What a [Read] that returns no error has done. *)
Lemma Read_returns_inv (W : World) (p : list byte) (m : machine)
    (n : Z) (p' : list byte) (m' : machine) :
  len p <= max_int64 ->
  Read W p m = (Returns (n, None, p'), m') ->
  let c := seekOffset (self m) in
  let o := Read_startOffsetInBlob W c in
  exists sdb bi resp enc dec,
    SDBlob_ptr (self m) = Some sdb /\
    nth_error (BlobInfos sdb) (Z.to_nat (Read_blobNum W c)) = Some bi /\
    http_Get_answer W (calls m) (blobInfoURL bi) = inr resp /\
    Body resp = inr enc /\
    DecryptBlob W enc (Key sdb) (IV bi) = inr dec /\
    0 <= o <= len dec /\
    Read W p m =
      (Returns (Z.min (o + len p) (len dec) - o, None,
                firstn (Z.to_nat (Z.min (o + len p) (len dec) - o)) (skipn (Z.to_nat o) dec)
                ++ skipn (Z.to_nat (Z.min (o + len p) (len dec) - o)) p),
       advanced (Z.min (o + len p) (len dec) - o) (fetched (blobInfoURL bi) m)).
Proof.
  intros Hp H c o.
  pose proof H as H0.
  rewrite Read_unfold in H0. cbv zeta in H0. fold c in H0. fold o in H0.
  destruct (SDBlob_ptr (self m)) as [sdb|] eqn:Hsd; [|discriminate].
  destruct ((0 <=? Read_blobNum W c) && (Read_blobNum W c <? len (BlobInfos sdb)))
    eqn:Hin; [|discriminate].
  destruct (nth_error (BlobInfos sdb) (Z.to_nat (Read_blobNum W c))) as [bi|] eqn:Hbi;
    [|discriminate].
  destruct (http_Get_answer W (calls m) (blobInfoURL bi)) as [err|resp] eqn:Hget;
    [discriminate|].
  destruct (StatusCode resp =? http_StatusOK) eqn:Hst; [|discriminate].
  destruct (Body resp) as [err|enc] eqn:Hbody; [discriminate|].
  destruct (DecryptBlob W enc (Key sdb) (IV bi)) as [err|dec] eqn:Hdec; [discriminate|].
  match type of H0 with
  | (if ?cond then _ else _) = _ => destruct cond eqn:Hcond; [|discriminate]
  end.
  clear H0.
  apply andb_prop in Hin. destruct Hin as [Hb0 _]. apply Z.leb_le in Hb0.
  apply andb_prop in Hcond. destruct Hcond as [Hcond He].
  apply andb_prop in Hcond. destruct Hcond as [Ho0 Hoe].
  apply Z.leb_le in Ho0, Hoe, He. apply Z.eqb_eq in Hst.
  pose proof (len_range_nonneg p) as Hp0.
  pose proof (len_range_nonneg dec) as Hd0.
  pose proof (Read_startOffsetInBlob_range W c) as Hor. fold o in Hor.
  assert (Hfit : o + len p <= max_int64).
  { destruct (Z_le_gt_dec (o + len p) max_int64) as [Hle|Hgt]; [exact Hle|].
    exfalso.
    assert (Hw : add64 (len p) o = len p + o - 2 ^ 64).
    { unfold add64. apply wrap64_over.
      unfold int64_range, min_int64, max_int64 in *. lia. }
    rewrite Hw in Hoe.
    unfold int64_range, min_int64, max_int64 in *.
    destruct (len p + o - 2 ^ 64 >? len dec) eqn:E.
    - apply Z.gtb_lt in E. lia.
    - lia. }
  assert (HoL : 0 <= o <= len dec).
  { split; [exact Ho0|].
    destruct (add64 (len p) o >? len dec); lia. }
  exists sdb, bi, resp, enc, dec.
  repeat (split; [first [assumption | reflexivity | lia]|]).
  exact (Read_ok W p m sdb bi resp enc dec Hsd Hb0 Hbi Hget Hst Hbody Hdec HoL Hfit).
Qed.

(** C2. A successful [Read] into a buffer of length [B], at offset [o] of
    a decrypted blob of length [L], has [o <= L], writes exactly
    [decryptedBlob[o : min(o+B, L)]] at the start of the buffer, returns
    [min(o+B, L) - o], advances the cursor by that count, and serves the
    bytes of the one blob it fetched, however large the buffer.  And a
    [Read] does succeed so whenever the addressed blob is fetched and
    decrypted and [0 <= o <= L]. *)
Theorem Read_serves_one_blob (W : World) (p : list byte) (m : machine) :
  len p <= max_int64 ->
  let c := seekOffset (self m) in
  let o := Read_startOffsetInBlob W c in
  let B := len p in
  (forall n p' m',
     Read W p m = (Returns (n, None, p'), m') ->
     exists sdb bi resp enc dec,
       SDBlob_ptr (self m) = Some sdb /\
       nth_error (BlobInfos sdb) (Z.to_nat (Read_blobNum W c)) = Some bi /\
       http_Get_answer W (calls m) (blobInfoURL bi) = inr resp /\
       Body resp = inr enc /\
       DecryptBlob W enc (Key sdb) (IV bi) = inr dec /\
       let L := len dec in
       0 <= o <= L /\
       n = Z.min (o + B) L - o /\
       p' = firstn (Z.to_nat n) (skipn (Z.to_nat o) dec) ++ skipn (Z.to_nat n) p /\
       seekOffset (self m') = add64 c n /\
       (int64_range (c + n) -> seekOffset (self m') = c + n) /\
       calls m' = calls m ++ [HttpGet (blobInfoURL bi)]) /\
  (forall sdb bi resp enc dec,
     SDBlob_ptr (self m) = Some sdb ->
     0 <= Read_blobNum W c ->
     nth_error (BlobInfos sdb) (Z.to_nat (Read_blobNum W c)) = Some bi ->
     http_Get_answer W (calls m) (blobInfoURL bi) = inr resp ->
     StatusCode resp = http_StatusOK ->
     Body resp = inr enc ->
     DecryptBlob W enc (Key sdb) (IV bi) = inr dec ->
     0 <= o <= len dec ->
     o + B <= max_int64 ->
     exists p' m',
       Read W p m = (Returns (Z.min (o + B) (len dec) - o, None, p'), m')).
Proof.
  intros Hp c o B. split.
  - intros n p' m' H.
    destruct (Read_returns_inv W p m n p' m' Hp H)
      as (sdb & bi & resp & enc & dec & Hsd & Hbi & Hget & Hbody & Hdec & HoL & Hok).
    fold c in Hbi, Hok. fold o in HoL, Hok. fold B in Hok.
    rewrite H in Hok. injection Hok as Hn Hp' Hm'.
    exists sdb, bi, resp, enc, dec.
    repeat (split; [assumption|]).
    split; [rewrite Hn; exact Hp'|].
    rewrite Hm', Hn. simpl. fold c.
    split; [reflexivity|]. split; [|reflexivity].
    intros Hr. unfold add64. now apply wrap64_id.
  - intros sdb bi resp enc dec Hsd Hb Hbi Hget Hst Hbody Hdec HoL Hfit.
    eexists. eexists.
    exact (Read_ok W p m sdb bi resp enc dec Hsd Hb Hbi Hget Hst Hbody Hdec HoL Hfit).
Qed.

Lemma Read_serves_one_blob_witness :
  let W := demoWorld in
  let m := mkMachine (demoStream 1) [] in
  let p := [x00; x00; x00; x00; x00; x00] in
  let m' := advanced 3 (fetched "http://blobs.lbry.io/aa" m) in
  Read W p m = (Returns (3, None, [x02; x03; x04; x00; x00; x00]), m') /\
  exists sdb bi resp enc dec,
    SDBlob_ptr (self m) = Some sdb /\
    nth_error (BlobInfos sdb) (Z.to_nat (Read_blobNum W 1)) = Some bi /\
    http_Get_answer W (calls m) (blobInfoURL bi) = inr resp /\
    Body resp = inr enc /\
    DecryptBlob W enc (Key sdb) (IV bi) = inr dec /\
    0 <= Read_startOffsetInBlob W 1 <= len dec /\
    3 = Z.min (Read_startOffsetInBlob W 1 + len p) (len dec) - Read_startOffsetInBlob W 1 /\
    [x02; x03; x04; x00; x00; x00]
      = firstn (Z.to_nat 3) (skipn (Z.to_nat (Read_startOffsetInBlob W 1)) dec)
        ++ skipn (Z.to_nat 3) p /\
    seekOffset (self m') = add64 1 3 /\
    (int64_range (1 + 3) -> seekOffset (self m') = 1 + 3) /\
    calls m' = calls m ++ [HttpGet (blobInfoURL bi)].
Proof.
  intros W m p m'.
  assert (Hrun : Read W p m = (Returns (3, None, [x02; x03; x04; x00; x00; x00]), m'))
    by (vm_compute; reflexivity).
  split; [exact Hrun|].
  assert (Hp : len p <= max_int64) by (unfold max_int64; vm_compute; discriminate).
  destruct (Read_serves_one_blob W p m Hp) as [Hinv _].
  exact (Hinv 3 [x02; x03; x04; x00; x00; x00] m' Hrun).
Defined.

(** ** Failed reads *)

Lemma advanced_0 (m : machine) :
  int64_range (seekOffset (self m)) -> advanced 0 m = m.
Proof.
  intros Hc. unfold advanced. rewrite add64_0_r by assumption.
  destruct m as [[] log]. reflexivity.
Qed.

(** A [Read] whose blob fetch fails returns that error with a count of
    zero; only the log of calls has grown. *)
Lemma Read_fails (W : World) (p : list byte) (m : machine)
    (sdb : SDBlob) (bi : BlobInfo) (e : error) :
  int64_range (seekOffset (self m)) ->
  SDBlob_ptr (self m) = Some sdb ->
  0 <= Read_blobNum W (seekOffset (self m)) ->
  nth_error (BlobInfos sdb) (Z.to_nat (Read_blobNum W (seekOffset (self m)))) = Some bi ->
  blobFails W (calls m) sdb bi e ->
  Read W p m = (Returns (0, Some e, p), fetched (blobInfoURL bi) m).
Proof.
  intros Hc Hsd Hb Hbi Hfail.
  assert (Hadv : advanced 0 (fetched (blobInfoURL bi) m) = fetched (blobInfoURL bi) m)
    by (apply advanced_0; exact Hc).
  rewrite Read_unfold. cbv zeta.
  rewrite Hsd, (index_in_range _ _ _ Hb Hbi), Hbi, Hadv.
  destruct Hfail as [Hget | (resp & Hget & [[Hst He] | [Hst [Hbody | (enc & Hbody & Hdec)]]])];
    rewrite Hget.
  - reflexivity.
  - apply Z.eqb_neq in Hst. rewrite Hst, He. reflexivity.
  - rewrite Hst, Z.eqb_refl, Hbody. reflexivity.
  - rewrite Hst, Z.eqb_refl, Hbody, Hdec. reflexivity.
Qed.

(** C10. A [Read] that returns a non-nil error returns a count of zero
    and leaves the cursor (and the buffer) as they were, although the
    cursor update runs on every return; the error is that of a transport
    failure, a status other than [200 OK], an unreadable body or a failed
    decryption, and each of these makes [Read] return so. *)
Theorem Read_error_keeps_cursor (W : World) (p : list byte) (m : machine) :
  int64_range (seekOffset (self m)) ->
  let b := Read_blobNum W (seekOffset (self m)) in
  (forall n e p' m',
     Read W p m = (Returns (n, Some e, p'), m') ->
     n = 0 /\ seekOffset (self m') = seekOffset (self m) /\ self m' = self m /\ p' = p /\
     exists sdb bi,
       SDBlob_ptr (self m) = Some sdb /\
       nth_error (BlobInfos sdb) (Z.to_nat b) = Some bi /\
       blobFails W (calls m) sdb bi e) /\
  (forall sdb bi e,
     SDBlob_ptr (self m) = Some sdb ->
     0 <= b ->
     nth_error (BlobInfos sdb) (Z.to_nat b) = Some bi ->
     blobFails W (calls m) sdb bi e ->
     exists m',
       Read W p m = (Returns (0, Some e, p), m') /\
       seekOffset (self m') = seekOffset (self m)).
Proof.
  intros Hc b. split.
  - intros n e p' m' H.
    rewrite Read_unfold in H. cbv zeta in H. fold b in H.
    destruct (SDBlob_ptr (self m)) as [sdb|] eqn:Hsd; [|discriminate].
    destruct ((0 <=? b) && (b <? len (BlobInfos sdb))); [|discriminate].
    destruct (nth_error (BlobInfos sdb) (Z.to_nat b)) as [bi|] eqn:Hbi; [|discriminate].
    rewrite (advanced_0 (fetched (blobInfoURL bi) m) Hc) in H.
    assert (Hgoal : forall e0, blobFails W (calls m) sdb bi e0 ->
              (Returns (0, Some e0, p), fetched (blobInfoURL bi) m)
                = (Returns (n, Some e, p'), m') ->
              n = 0 /\ seekOffset (self m') = seekOffset (self m) /\ self m' = self m /\
              p' = p /\
              exists sdb0 bi0,
                Some sdb = Some sdb0 /\
                nth_error (BlobInfos sdb0) (Z.to_nat b) = Some bi0 /\
                blobFails W (calls m) sdb0 bi0 e).
    { intros e0 Hf Heq. inversion Heq; subst.
      repeat (split; [reflexivity|]). exists sdb, bi. auto. }
    destruct (http_Get_answer W (calls m) (blobInfoURL bi)) as [err|resp] eqn:Hget.
    { apply (Hgoal err); [left; exact Hget | exact H]. }
    destruct (StatusCode resp =? http_StatusOK) eqn:Hst.
    2:{ apply Z.eqb_neq in Hst.
        apply (Hgoal (BlobFetchError resp)); [|exact H].
        right. exists resp. split; [exact Hget|]. left. auto. }
    apply Z.eqb_eq in Hst.
    destruct (Body resp) as [err|enc] eqn:Hbody.
    { apply (Hgoal err); [|exact H].
      right. exists resp. split; [exact Hget|]. right. split; [exact Hst|]. left. exact Hbody. }
    destruct (DecryptBlob W enc (Key sdb) (IV bi)) as [err|dec] eqn:Hdec.
    { apply (Hgoal err); [|exact H].
      right. exists resp. split; [exact Hget|]. right. split; [exact Hst|].
      right. exists enc. auto. }
    match type of H with
    | (if ?cond then _ else _) = _ => destruct cond; discriminate
    end.
  - intros sdb bi e Hsd Hb Hbi Hf.
    exists (fetched (blobInfoURL bi) m). split; [|reflexivity].
    now apply Read_fails with (sdb := sdb).
Qed.

Lemma Read_error_keeps_cursor_witness :
  let m := mkMachine demoMissing [] in
  let e := BlobFetchError (mkResponse 404 "404 Not Found" (inr [])) in
  exists m',
    Read demoWorld [x00; x00] m = (Returns (0, Some e, [x00; x00]), m') /\
    seekOffset (self m') = seekOffset (self m).
Proof.
  intros m e.
  assert (Hc : int64_range (seekOffset (self m)))
    by (unfold int64_range, min_int64, max_int64; simpl; lia).
  destruct (Read_error_keeps_cursor demoWorld [x00; x00] m Hc) as [_ Hcause].
  apply (Hcause (mkSDBlob [mkBlobInfo 10 0 [x00] [x01]] [x03]) (mkBlobInfo 10 0 [x00] [x01]) e).
  - reflexivity.
  - vm_compute. discriminate.
  - reflexivity.
  - right. exists (mkResponse 404 "404 Not Found" (inr [])).
    split; [reflexivity|]. left. split; [vm_compute; discriminate | reflexivity].
Defined.

(** ** Reads beyond the index *)

(** C5. When the blob number [Read] computes is not below the number of
    descriptors, the index expression [BlobInfos[blobNum]] panics with the
    run-time error "index out of range": [Read] does not return, makes no
    fetch, and leaves the handle as it was. *)
Theorem Read_past_index_panics (W : World) (p : list byte) (m : machine)
    (sdb : SDBlob) :
  SDBlob_ptr (self m) = Some sdb ->
  len (BlobInfos sdb) <= Read_blobNum W (seekOffset (self m)) ->
  Read W p m =
    (Panics (IndexOutOfRange (Read_blobNum W (seekOffset (self m))) (len (BlobInfos sdb))),
     m).
Proof.
  intros Hsd Hout. rewrite Read_unfold. cbv zeta. rewrite Hsd.
  replace (Read_blobNum W (seekOffset (self m)) <? len (BlobInfos sdb)) with false
    by (symmetry; apply Z.ltb_ge; exact Hout).
  rewrite andb_false_r. reflexivity.
Qed.

Lemma Read_past_index_panics_witness :
  let m := mkMachine (demoStream 4194300) [] in
  Read demoWorld [x00] m = (Panics (IndexOutOfRange 2 2), m).
Proof.
  intros m.
  apply (Read_past_index_panics demoWorld [x00] m (mkSDBlob [demoBlob0; demoBlob1] [x03])).
  - reflexivity.
  - vm_compute. discriminate.
Defined.

(** At cursor [2 * (MaxBlobSize - 2)] of a two-blob stream, reached by a
    seek past the end, [Read] computes blob number 2 and returns nothing,
    an error value included. *)
Lemma Read_past_index_returns_no_error :
  let m0 := mkMachine (demoStream 0) [] in
  exists m,
    Seek 4194300 io_SeekStart m0 = (Returns (4194300, None), m) /\
    len [demoBlob0; demoBlob1] <= Read_blobNum demoWorld (seekOffset (self m)) /\
    ~ (exists n e p' m', Read demoWorld [x00] m = (Returns (n, Some e, p'), m')).
Proof.
  intros m0. exists (moved 4194300 m0). split; [reflexivity|]. split.
  - vm_compute. discriminate.
  - intros (n & e & p' & m' & H). vm_compute in H. discriminate.
Qed.

(** ** End of a blob *)

(** A [Read] that starts exactly at the end of the decrypted blob copies
    the empty range. *)
Lemma Read_at_end (W : World) (p : list byte) (m : machine)
    (sdb : SDBlob) (bi : BlobInfo) (resp : Response) (enc dec : list byte) :
  let c := seekOffset (self m) in
  int64_range c ->
  SDBlob_ptr (self m) = Some sdb ->
  0 <= Read_blobNum W c ->
  nth_error (BlobInfos sdb) (Z.to_nat (Read_blobNum W c)) = Some bi ->
  http_Get_answer W (calls m) (blobInfoURL bi) = inr resp ->
  StatusCode resp = http_StatusOK ->
  Body resp = inr enc ->
  DecryptBlob W enc (Key sdb) (IV bi) = inr dec ->
  Read_startOffsetInBlob W c = len dec ->
  len dec + len p <= max_int64 ->
  Read W p m = (Returns (0, None, p), fetched (blobInfoURL bi) m).
Proof.
  intros c Hc Hsd Hb Hbi Hget Hst Hbody Hdec Ho Hfit.
  pose proof (len_range_nonneg p) as Hp. pose proof (len_range_nonneg dec) as Hd.
  rewrite (Read_ok W p m sdb bi resp enc dec Hsd Hb Hbi Hget Hst Hbody Hdec);
    fold c; rewrite ?Ho; try lia.
  replace (Z.min (len dec + len p) (len dec) - len dec) with 0 by lia.
  rewrite advanced_0 by exact Hc.
  reflexivity.
Qed.

(** C6. A [Read] whose offset within the addressed blob equals the length
    of the decrypted blob returns a count of zero and no error.  For a
    single-blob stream of plaintext length [L < MaxBlobSize - 2], a [Read]
    at cursor 0 into a buffer of size [L] returns the [L] plaintext bytes
    and the next [Read] returns zero bytes and no error. *)
Theorem Read_end_of_blob (W : World) (m : machine) (sdb : SDBlob) (bi : BlobInfo) :
  MaxBlobSize_ok W ->
  SDBlob_ptr (self m) = Some sdb ->
  let url := blobInfoURL bi in
  let fetchGives (log : list event) (dec : list byte) :=
    exists resp enc,
      http_Get_answer W log url = inr resp /\
      StatusCode resp = http_StatusOK /\
      Body resp = inr enc /\
      DecryptBlob W enc (Key sdb) (IV bi) = inr dec in
  (forall p dec,
     let c := seekOffset (self m) in
     int64_range c ->
     0 <= Read_blobNum W c ->
     nth_error (BlobInfos sdb) (Z.to_nat (Read_blobNum W c)) = Some bi ->
     fetchGives (calls m) dec ->
     Read_startOffsetInBlob W c = len dec ->
     len dec + len p <= max_int64 ->
     Read W p m = (Returns (0, None, p), fetched url m)) /\
  (forall p q dec,
     BlobInfos sdb = [bi] ->
     seekOffset (self m) = 0 ->
     len p = len dec ->
     len dec < MaxBlobSize W - 2 ->
     len dec + len q <= max_int64 ->
     fetchGives (calls m) dec ->
     fetchGives (calls m ++ [HttpGet url]) dec ->
     exists m1,
       Read W p m = (Returns (len dec, None, dec), m1) /\
       seekOffset (self m1) = len dec /\
       Read W q m1 = (Returns (0, None, q), fetched url m1)).
Proof.
  intros HM Hsd url fetchGives. split.
  - intros p dec c Hc Hb Hbi (resp & enc & Hget & Hst & Hbody & Hdec) Ho Hfit.
    now apply Read_at_end with (sdb := sdb) (resp := resp) (enc := enc) (dec := dec).
  - intros p q dec Hone Hc0 Hlen HL Hfit
      (resp1 & enc1 & Hget1 & Hst1 & Hbody1 & Hdec1)
      (resp2 & enc2 & Hget2 & Hst2 & Hbody2 & Hdec2).
    pose proof (len_range_nonneg dec) as Hd. pose proof (len_range_nonneg q) as Hq.
    assert (HM' := HM). unfold MaxBlobSize_ok, max_int64 in HM'.
    assert (Hb0 : Read_blobNum W 0 = 0).
    { rewrite Read_blobNum_floor by (unfold max_int64; auto with zarith).
      apply Z.div_0_l. lia. }
    assert (Ho0 : Read_startOffsetInBlob W 0 = 0).
    { rewrite Read_startOffsetInBlob_exact by (unfold max_int64; auto with zarith).
      rewrite Z.div_0_l by lia. reflexivity. }
    assert (HbL : Read_blobNum W (len dec) = 0).
    { rewrite Read_blobNum_floor by (unfold max_int64; auto with zarith).
      apply Z.div_small. lia. }
    assert (HoL : Read_startOffsetInBlob W (len dec) = len dec).
    { rewrite Read_startOffsetInBlob_exact by (unfold max_int64; auto with zarith).
      rewrite Z.div_small by lia. simpl. lia. }
    exists (advanced (len dec) (fetched url m)).
    assert (Hcur : seekOffset (self (advanced (len dec) (fetched url m))) = len dec).
    { simpl. rewrite Hc0. apply add64_0_l.
      unfold int64_range, min_int64, max_int64. lia. }
    split; [|split; [exact Hcur|]].
    + rewrite (Read_ok W p m sdb bi resp1 enc1 dec Hsd);
        rewrite ?Hc0, ?Hb0, ?Ho0, ?Hone; try first [assumption | reflexivity | lia].
      replace (Z.min (0 + len p) (len dec) - 0) with (len dec) by lia.
      replace (skipn (Z.to_nat (len dec)) p) with (@nil byte)
        by (symmetry; apply skipn_all2; unfold len in *; lia).
      replace (firstn (Z.to_nat (len dec)) (skipn (Z.to_nat 0) dec)) with dec
        by (simpl skipn; symmetry; apply firstn_all2; unfold len; lia).
      rewrite app_nil_r. reflexivity.
    + apply Read_at_end with (sdb := sdb) (resp := resp2) (enc := enc2) (dec := dec);
        rewrite ?Hcur, ?HbL, ?Hone; try first [assumption | reflexivity | lia].
      unfold int64_range, min_int64, max_int64. lia.
Qed.

Lemma Read_end_of_blob_witness :
  let m := mkMachine (demoSingle 0) [] in
  let m4 := mkMachine (demoSingle 4) [] in
  Read demoWorld [x00; x00] m4 =
    (Returns (0, None, [x00; x00]), fetched "http://blobs.lbry.io/aa" m4) /\
  exists m1,
    Read demoWorld [x00; x00; x00; x00] m = (Returns (4, None, [x01; x02; x03; x04]), m1) /\
    seekOffset (self m1) = 4 /\
    Read demoWorld [x00] m1 = (Returns (0, None, [x00]), fetched "http://blobs.lbry.io/aa" m1).
Proof.
  intros m m4.
  assert (HM : MaxBlobSize_ok demoWorld)
    by (unfold MaxBlobSize_ok, max_int64; simpl; lia).
  assert (Hfetch : forall log,
            exists resp enc,
              http_Get_answer demoWorld log (blobInfoURL demoBlob0) = inr resp /\
              StatusCode resp = http_StatusOK /\
              Body resp = inr enc /\
              DecryptBlob demoWorld enc [x03] (IV demoBlob0) = inr [x01; x02; x03; x04]).
  { intros log. exists (mkResponse 200 "200 OK" (inr [x01; x02; x03; x04])).
    exists [x01; x02; x03; x04]. repeat split. }
  split.
  - destruct (Read_end_of_blob demoWorld m4 (mkSDBlob [demoBlob0] [x03]) demoBlob0 HM eq_refl)
      as [Hend _].
    apply (Hend [x00; x00] [x01; x02; x03; x04]).
    + unfold int64_range, min_int64, max_int64. simpl. lia.
    + vm_compute. discriminate.
    + reflexivity.
    + apply Hfetch.
    + reflexivity.
    + vm_compute. discriminate.
  - destruct (Read_end_of_blob demoWorld m (mkSDBlob [demoBlob0] [x03]) demoBlob0 HM eq_refl)
      as [_ Hone].
    apply (Hone [x00; x00; x00; x00] [x00] [x01; x02; x03; x04]).
    + reflexivity.
    + reflexivity.
    + reflexivity.
    + vm_compute. reflexivity.
    + vm_compute. discriminate.
    + apply Hfetch.
    + apply Hfetch.
Defined.

Lemma len_bigBody : len bigBody = 2097150.
Proof. unfold len, bigBody. rewrite repeat_length. lia. Qed.

(** Two reads the claim of an end-of-file result does not survive.
    (1) On a single-blob stream of four bytes, a [Read] at cursor 5, where
    the offset in the blob exceeds the blob's length, panics on the slice
    expression [decryptedBody[5:4]].  (2) On a single-blob stream of
    [MaxBlobSize - 2] bytes, the [Read] at cursor 0 returns all of them,
    and the next [Read] computes blob number 1 and panics on the index. *)
Lemma Read_end_of_blob_counterexample :
  (let m := mkMachine (demoSingle 5) [] in
   len [x01; x02; x03; x04] <= Read_startOffsetInBlob demoWorld 5 /\
   Read demoWorld [x00] m =
     (Panics (SliceBoundsOutOfRange 5 4), fetched "http://blobs.lbry.io/aa" m) /\
   ~ (exists p' m', Read demoWorld [x00] m = (Returns (0, None, p'), m'))) /\
  (let m := mkMachine (bigSingle 0) [] in
   exists m1,
     Read bigWorld bigBody m = (Returns (len bigBody, None, bigBody), m1) /\
     Read bigWorld [x00] m1 = (Panics (IndexOutOfRange 1 1), m1) /\
     ~ (exists p' m', Read bigWorld [x00] m1 = (Returns (0, None, p'), m'))).
Proof.
  split.
  - intros m. split; [vm_compute; discriminate|]. split; [vm_compute; reflexivity|].
    intros (p' & m' & H). vm_compute in H. discriminate.
  - intros m.
    exists (advanced 2097150 (fetched (blobInfoURL demoBlob0) m)).
    assert (Hpanic : Read bigWorld [x00] (advanced 2097150 (fetched (blobInfoURL demoBlob0) m))
                     = (Panics (IndexOutOfRange 1 1),
                        advanced 2097150 (fetched (blobInfoURL demoBlob0) m)))
      by (vm_compute; reflexivity).
    split; [|split; [exact Hpanic|]].
    + assert (Ho : Read_startOffsetInBlob bigWorld (seekOffset (self m)) = 0)
        by (vm_compute; reflexivity).
      assert (Hb : 0 <= Read_blobNum bigWorld (seekOffset (self m)))
        by (vm_compute; discriminate).
      assert (HoL : 0 <= Read_startOffsetInBlob bigWorld (seekOffset (self m))
                    <= len bigBody)
        by (rewrite Ho, len_bigBody; lia).
      assert (Hfit : Read_startOffsetInBlob bigWorld (seekOffset (self m)) + len bigBody
                     <= max_int64)
        by (rewrite Ho, len_bigBody; unfold max_int64; lia).
      pose proof (Read_ok bigWorld bigBody m (mkSDBlob [demoBlob0] [x03]) demoBlob0
                    (mkResponse 200 "200 OK" (inr bigBody)) bigBody bigBody
                    eq_refl Hb eq_refl eq_refl eq_refl eq_refl eq_refl HoL Hfit) as Hok.
      rewrite Ho, len_bigBody in Hok.
      change (Z.min (0 + 2097150) 2097150 - 0) with 2097150 in Hok.
      replace (skipn (Z.to_nat 2097150) bigBody) with (@nil byte) in Hok
        by (symmetry; apply skipn_all2; pose proof len_bigBody; unfold len in *; lia).
      replace (firstn (Z.to_nat 2097150) (skipn (Z.to_nat 0) bigBody)) with bigBody in Hok
        by (change (Z.to_nat 0) with 0%nat; unfold skipn; symmetry;
            apply firstn_all2; pose proof len_bigBody; unfold len in *; lia).
      rewrite app_nil_r in Hok. rewrite len_bigBody. exact Hok.
    + intros (p' & m' & H). rewrite Hpanic in H. discriminate.
Qed.

(** ** Index fetch *)

Lemma fetchData_unfold (W : World) (m : machine) :
  fetchData W m =
    let s := self m in
    if String.eqb (SdHash s) "" then
      (Returns (Some (errors_New "no sd hash set, call `resolve` first")), m)
    else
      let m1 := fetched (URL s) m in
      match http_Get_answer W (calls m) (URL s) with
      | inl err => (Returns (Some err), m1)
      | inr resp =>
          match Body resp with
          | inl err => (Returns (Some err), m1)
          | inr body =>
              match UnmarshalJSON W body with
              | inl err => (Returns (Some err), m1)
              | inr sdb =>
                  let size :=
                    if Size s =? 0
                    then sub64 (fold_left (addBlobSize W) (BlobInfos sdb) (Size s)) 15
                    else Size s in
                  (Returns None,
                   mkMachine
                     (set_SDBlob
                        (Some (mkSDBlob (sort_Slice W blobNumLess (BlobInfos sdb)) (Key sdb)))
                        (set_Size size s))
                     (calls m1))
              end
          end
      end.
Proof.
  unfold fetchData, bind, this, http_Get, ret, update, fetched. cbv zeta.
  destruct (String.eqb (SdHash (self m)) ""); [reflexivity|].
  destruct (http_Get_answer W (calls m) (URL (self m))) as [err|resp]; [reflexivity|].
  destruct (Body resp) as [err|body]; [reflexivity|].
  destruct (UnmarshalJSON W body) as [err|sdb]; [reflexivity|].
  destruct (Size (self m) =? 0); reflexivity.
Qed.

(** The loop adds modulo [2^64]: it ends on the wrapped exact sum. *)
Lemma addBlobSize_plainLength (W : World) (size : Z) (bi : BlobInfo) :
  addBlobSize W size bi = wrap64 (size + plainLength W bi).
Proof.
  unfold addBlobSize, plainLength, add64.
  destruct (Length bi =? MaxBlobSize W); reflexivity.
Qed.

Lemma fold_addBlobSize (W : World) (blobs : list BlobInfo) (size : Z) :
  wrap64 (fold_left (addBlobSize W) blobs size)
  = wrap64 (size + sumZ (map (plainLength W) blobs)).
Proof.
  revert size. induction blobs as [|bi rest IH]; intros size; simpl.
  - now rewrite Z.add_0_r.
  - rewrite IH, addBlobSize_plainLength, wrap64_add_l. f_equal. lia.
Qed.

Lemma size_loop_then_15 (W : World) (blobs : list BlobInfo) :
  sub64 (fold_left (addBlobSize W) blobs 0) 15 = wrap64 (estimatedSize W blobs).
Proof.
  unfold sub64, estimatedSize.
  rewrite <- wrap64_sub_l, fold_addBlobSize, wrap64_sub_l. reflexivity.
Qed.

Lemma sumZ_full (W : World) (blobs : list BlobInfo) :
  Forall (fun bi => Length bi = MaxBlobSize W) blobs ->
  sumZ (map (plainLength W) blobs) = len blobs * (MaxBlobSize W - 1).
Proof.
  unfold len. induction 1 as [|bi rest Hbi _ IH]; [reflexivity|].
  cbn [map sumZ fold_right List.length]. fold (sumZ (map (plainLength W) rest)).
  rewrite IH. unfold plainLength. rewrite Hbi, Z.eqb_refl. lia.
Qed.

(** C4. When the resolved size is 0, a successful index fetch sets [Size]
    to the sum over the descriptors of the document of ([MaxBlobSize - 1]
    for a declared length of [MaxBlobSize], the declared length
    otherwise), minus 15, as an [int64]: exactly that number when it fits.
    For [N] descriptors of declared length [MaxBlobSize] this is
    [N * (MaxBlobSize - 1) - 15].  When the resolved size is not 0 the
    index fetch leaves [Size] as it was. *)
Theorem fetchData_estimates_size (W : World) (m : machine)
    (r : Result (option error)) (m' : machine) :
  fetchData W m = (r, m') ->
  (Size (self m) <> 0 -> Size (self m') = Size (self m)) /\
  (Size (self m) = 0 -> r = Returns None ->
     exists resp body sdb,
       http_Get_answer W (calls m) (URL (self m)) = inr resp /\
       Body resp = inr body /\
       UnmarshalJSON W body = inr sdb /\
       Size (self m') = wrap64 (estimatedSize W (BlobInfos sdb)) /\
       (int64_range (estimatedSize W (BlobInfos sdb)) ->
          Size (self m') = estimatedSize W (BlobInfos sdb)) /\
       (Forall (fun bi => Length bi = MaxBlobSize W) (BlobInfos sdb) ->
          estimatedSize W (BlobInfos sdb)
            = len (BlobInfos sdb) * (MaxBlobSize W - 1) - 15)).
Proof.
  intros H. rewrite fetchData_unfold in H. cbv zeta in H.
  destruct (String.eqb (SdHash (self m)) "").
  { inversion H; subst. split; [reflexivity | discriminate]. }
  destruct (http_Get_answer W (calls m) (URL (self m))) as [err|resp].
  { inversion H; subst. split; [reflexivity | discriminate]. }
  destruct (Body resp) as [err|body] eqn:Hbody.
  { inversion H; subst. split; [reflexivity | discriminate]. }
  destruct (UnmarshalJSON W body) as [err|sdb] eqn:Hjson.
  { inversion H; subst. split; [reflexivity | discriminate]. }
  inversion H; subst; clear H. simpl. split.
  - intros Hnz. apply Z.eqb_neq in Hnz. now rewrite Hnz.
  - intros Hz _. rewrite Hz. simpl.
    exists resp, body, sdb. repeat (split; [reflexivity || assumption|]).
    rewrite size_loop_then_15. repeat split.
    + intros Hr. now apply wrap64_id.
    + intros Hall. unfold estimatedSize. now rewrite sumZ_full.
Qed.

Lemma fetchData_estimates_size_witness :
  let m := mkMachine demoResolved [] in
  let m' := mkMachine (demoStream 0) [HttpGet "http://blobs.lbry.io/aabb"] in
  fetchData demoWorld m = (Returns None, m') /\
  exists resp body sdb,
    http_Get_answer demoWorld (calls m) (URL (self m)) = inr resp /\
    Body resp = inr body /\
    UnmarshalJSON demoWorld body = inr sdb /\
    Size (self m') = wrap64 (estimatedSize demoWorld (BlobInfos sdb)) /\
    (int64_range (estimatedSize demoWorld (BlobInfos sdb)) ->
       Size (self m') = estimatedSize demoWorld (BlobInfos sdb)) /\
    (Forall (fun bi => Length bi = MaxBlobSize demoWorld) (BlobInfos sdb) ->
       estimatedSize demoWorld (BlobInfos sdb)
         = len (BlobInfos sdb) * (MaxBlobSize demoWorld - 1) - 15).
Proof.
  intros m m'.
  assert (Hrun : fetchData demoWorld m = (Returns None, m')) by (vm_compute; reflexivity).
  split; [exact Hrun|].
  apply (fetchData_estimates_size demoWorld m (Returns None) m' Hrun); reflexivity.
Defined.

(** ** Resolution *)

Lemma resolve_unfold (W : World) (m : machine) :
  resolve W m =
    let s := self m in
    if String.eqb (URI s) "" then (Returns (Some ValidationError), m)
    else
      let m1 := resolved (URI s) m in
      match lbrynet_Resolve W (calls m) (URI s) with
      | inl err => (Returns (Some err), m1)
      | inr claim =>
          match GetStream claim with
          | None => (Panics NilPointerDereference, m1)
          | Some stream =>
              if match Stream_Fee stream with
                 | Some fee => Amount fee >? 0
                 | None => false
                 end
              then (Returns (Some PaidContentError), m1)
              else
                match Stream_Source stream with
                | None => (Panics NilPointerDereference, m1)
                | Some source =>
                    (Returns None,
                     mkMachine
                       (set_resolved (hex_EncodeToString (Source_SdHash source))
                          (MediaType source) (wrap64 (Source_Size source)) s)
                       (calls m1))
                end
          end
      end.
Proof.
  unfold resolve, bind, this, Resolve, deref, ret, panic, update, resolved.
  cbv zeta.
  destruct (String.eqb (URI (self m)) ""); [reflexivity|].
  destruct (lbrynet_Resolve W (calls m) (URI (self m))) as [err|claim]; [reflexivity|].
  destruct (GetStream claim) as [stream|]; [|reflexivity].
  destruct (match Stream_Fee stream with Some fee => Amount fee >? 0 | None => false end);
    [reflexivity|].
  destruct (Stream_Source stream); reflexivity.
Qed.

Lemma paid_test (stream : Stream) :
  match Stream_Fee stream with
  | Some fee => Amount fee >? 0
  | None => false
  end = true <-> paid stream.
Proof.
  unfold paid. destruct (Stream_Fee stream) as [fee|].
  - rewrite Z.gtb_ltb, Z.ltb_lt. split.
    + intros H. exists fee. split; [reflexivity | lia].
    + intros (fee' & Heq & H). inversion Heq; subst. lia.
  - split; [discriminate | intros (fee & Heq & _); discriminate].
Qed.

(** C8. An empty URI fails with [ValidationError] and the resolver is not
    called; a resolved stream with a fee amount above 0 fails with
    [PaidContentError], the handle is untouched and [PlayURI] returns
    before any blob (or descriptor) is fetched; [SdHash] (hex-encoded),
    [ContentType] and [Size] are set from the resolver's answer when, and
    only when, neither rejection applies. *)
Theorem resolve_rejections (W : World) (m : machine) :
  let uri := URI (self m) in
  (uri = "" -> resolve W m = (Returns (Some ValidationError), m)) /\
  (forall claim stream,
     uri <> "" ->
     lbrynet_Resolve W (calls m) uri = inr claim ->
     GetStream claim = Some stream ->
     paid stream ->
     resolve W m = (Returns (Some PaidContentError), resolved uri m)) /\
  (forall claim stream source,
     uri <> "" ->
     lbrynet_Resolve W (calls m) uri = inr claim ->
     GetStream claim = Some stream ->
     ~ paid stream ->
     Stream_Source stream = Some source ->
     exists m',
       resolve W m = (Returns None, m') /\
       calls m' = calls m ++ [Resolved uri] /\
       SdHash (self m') = hex_EncodeToString (Source_SdHash source) /\
       ContentType (self m') = MediaType source /\
       Size (self m') = wrap64 (Source_Size source) /\
       (0 <= Source_Size source <= max_int64 -> Size (self m') = Source_Size source)) /\
  (forall r m',
     resolve W m = (r, m') ->
     self m' <> self m ->
     uri <> "" /\
     exists claim stream source,
       lbrynet_Resolve W (calls m) uri = inr claim /\
       GetStream claim = Some stream /\
       ~ paid stream /\
       Stream_Source stream = Some source /\
       r = Returns None) /\
  (forall r m', resolve W m = (r, m') -> ~ Exists isHttpGet (skipn (List.length (calls m)) (calls m'))) /\
  (forall ServeContent u claim stream log,
     u <> "" ->
     lbrynet_Resolve W log u = inr claim ->
     GetStream claim = Some stream ->
     paid stream ->
     PlayURI W ServeContent u log
       = (Returns (Some PaidContentError), mkMachine (zeroStream u) (log ++ [Resolved u]))) /\
  (forall ServeContent log,
     PlayURI W ServeContent "" log
       = (Returns (Some ValidationError), mkMachine (zeroStream "") log)).
Proof.
  intros uri.
  assert (Hempty : forall u, u <> "" -> String.eqb u "" = false)
    by (intros u Hu; now apply String.eqb_neq).
  assert (Hskip : forall (l : list event) ev,
            ~ Exists isHttpGet (skipn (List.length l) l) /\
            (~ isHttpGet ev -> ~ Exists isHttpGet (skipn (List.length l) (l ++ [ev])))).
  { intros l ev. split.
    - rewrite skipn_all. intros H. inversion H.
    - intros Hev. rewrite skipn_app, skipn_all, Nat.sub_diag. simpl.
      intros H. inversion H as [? ? H1|? ? H1]; [tauto | inversion H1]. }
  split; [|split; [|split; [|split; [|split; [|split]]]]].
  - intros Hu. rewrite resolve_unfold. cbv zeta. fold uri. rewrite Hu. reflexivity.
  - intros claim stream Hu Hres Hstream Hpaid.
    rewrite resolve_unfold. cbv zeta. fold uri.
    rewrite (Hempty uri Hu), Hres, Hstream.
    apply paid_test in Hpaid. rewrite Hpaid. reflexivity.
  - intros claim stream source Hu Hres Hstream Hfree Hsource.
    rewrite resolve_unfold. cbv zeta. fold uri.
    rewrite (Hempty uri Hu), Hres, Hstream, Hsource.
    destruct (match Stream_Fee stream with Some fee => Amount fee >? 0 | None => false end)
      eqn:Hfee; [apply paid_test in Hfee; contradiction|].
    eexists. split; [reflexivity|]. simpl. repeat split.
    intros Hr. apply wrap64_id. unfold int64_range, min_int64, max_int64 in *. lia.
  - intros r m' H Hchanged.
    rewrite resolve_unfold in H. cbv zeta in H. fold uri in H.
    destruct (String.eqb uri "") eqn:Hu.
    { inversion H; subst. contradiction. }
    apply String.eqb_neq in Hu. split; [exact Hu|].
    destruct (lbrynet_Resolve W (calls m) uri) as [err|claim].
    { inversion H; subst. contradiction Hchanged. reflexivity. }
    destruct (GetStream claim) as [stream|] eqn:Hstream.
    2:{ inversion H; subst. contradiction Hchanged. reflexivity. }
    destruct (match Stream_Fee stream with Some fee => Amount fee >? 0 | None => false end)
      eqn:Hfee.
    { inversion H; subst. contradiction Hchanged. reflexivity. }
    destruct (Stream_Source stream) as [source|] eqn:Hsource.
    2:{ inversion H; subst. contradiction Hchanged. reflexivity. }
    inversion H; subst.
    exists claim, stream, source. repeat split; try assumption; try reflexivity.
    intros Hpaid. apply paid_test in Hpaid. congruence.
  - intros r m' H.
    rewrite resolve_unfold in H. cbv zeta in H. fold uri in H.
    destruct (String.eqb uri "").
    { injection H as _ <-. apply (Hskip (calls m) (Resolved uri)). }
    assert (Hlog : calls m' = calls m ++ [Resolved uri]).
    { destruct (lbrynet_Resolve W (calls m) uri) as [err|claim];
        [inversion H; reflexivity|].
      destruct (GetStream claim) as [stream|]; [|inversion H; reflexivity].
      destruct (match Stream_Fee stream with Some fee => Amount fee >? 0 | None => false end);
        [inversion H; reflexivity|].
      destruct (Stream_Source stream); inversion H; reflexivity. }
    rewrite Hlog. apply (Hskip (calls m) (Resolved uri)). simpl. tauto.
  - intros ServeContent u claim stream log Hu Hres Hstream Hpaid.
    unfold PlayURI, newReflectedStream. rewrite resolve_unfold. cbv zeta. simpl.
    rewrite (Hempty u Hu), Hres, Hstream.
    apply paid_test in Hpaid. rewrite Hpaid. reflexivity.
  - intros ServeContent log. reflexivity.
Qed.

Lemma resolve_rejections_witness :
  resolve demoWorld (mkMachine (zeroStream "") [])
    = (Returns (Some ValidationError), mkMachine (zeroStream "") []) /\
  resolve demoWorld (mkMachine (zeroStream "lbry://paid") [])
    = (Returns (Some PaidContentError),
       mkMachine (zeroStream "lbry://paid") [Resolved "lbry://paid"]) /\
  (exists m',
     resolve demoWorld (mkMachine (zeroStream "lbry://free") []) = (Returns None, m') /\
     calls m' = [Resolved "lbry://free"] /\
     SdHash (self m') = "aabb" /\
     ContentType (self m') = "video/mp4" /\
     Size (self m') = 0 /\
     (0 <= 0 <= max_int64 -> Size (self m') = 0)) /\
  PlayURI demoWorld (ret tt) "lbry://paid" []
    = (Returns (Some PaidContentError),
       mkMachine (zeroStream "lbry://paid") [Resolved "lbry://paid"]).
Proof.
  destruct (resolve_rejections demoWorld (mkMachine (zeroStream "") []))
    as (Hempty & _).
  destruct (resolve_rejections demoWorld (mkMachine (zeroStream "lbry://paid") []))
    as (_ & Hpaid & _ & _ & _ & Hplay & _).
  destruct (resolve_rejections demoWorld (mkMachine (zeroStream "lbry://free") []))
    as (_ & _ & Hfree & _).
  assert (Hfee : paid (mkStream (Some (mkFee 1)) (Some (mkSource [xaa; xbb] "video/mp4" 7)))).
  { exists (mkFee 1). split; [reflexivity | simpl; lia]. }
  split; [|split; [|split]].
  - apply Hempty. reflexivity.
  - apply (Hpaid demoPaid (mkStream (Some (mkFee 1)) (Some (mkSource [xaa; xbb] "video/mp4" 7)))).
    + discriminate.
    + reflexivity.
    + reflexivity.
    + exact Hfee.
  - apply (Hfree demoFree (mkStream None (Some (mkSource [xaa; xbb] "video/mp4" 0)))
             (mkSource [xaa; xbb] "video/mp4" 0)).
    + discriminate.
    + reflexivity.
    + reflexivity.
    + intros (fee & Hsome & _). discriminate.
    + reflexivity.
  - apply (Hplay (ret tt) "lbry://paid" demoPaid
             (mkStream (Some (mkFee 1)) (Some (mkSource [xaa; xbb] "video/mp4" 7))) []).
    + discriminate.
    + reflexivity.
    + reflexivity.
    + exact Hfee.
Defined.

(** ** Order of the index *)

Lemma insertBy_perm {A : Type} (less : A -> A -> bool) (x : A) (l : list A) :
  Permutation (x :: l) (insertBy less x l).
Proof.
  induction l as [|y rest IH]; simpl; [reflexivity|].
  destruct (less y x); [|reflexivity].
  rewrite perm_swap. now apply perm_skip.
Qed.

Lemma insertionSort_perm {A : Type} (less : A -> A -> bool) (l : list A) :
  Permutation l (insertionSort less l).
Proof.
  induction l as [|x rest IH]; simpl; [reflexivity|].
  rewrite <- insertBy_perm. now apply perm_skip.
Qed.

Lemma insertBy_sorted (x : BlobInfo) (l : list BlobInfo) :
  StronglySorted byBlobNum l -> StronglySorted byBlobNum (insertBy blobNumLess x l).
Proof.
  induction 1 as [|y rest Hrest IH Hy]; simpl.
  - repeat constructor.
  - unfold blobNumLess at 1. destruct (BlobNum y <? BlobNum x) eqn:E.
    + apply Z.ltb_lt in E. constructor; [exact IH|].
      apply (Permutation_Forall (insertBy_perm blobNumLess x rest)).
      constructor; [unfold byBlobNum; lia | exact Hy].
    + apply Z.ltb_ge in E. constructor; [now constructor|].
      constructor; [exact E|].
      apply Forall_impl with (P := byBlobNum y); [|exact Hy].
      unfold byBlobNum. intros b Hb. lia.
Qed.

Lemma insertionSort_ok (W : World) :
  sort_Slice W = @insertionSort BlobInfo -> sort_Slice_ok W.
Proof.
  intros HW l. rewrite HW. split; [apply insertionSort_perm|].
  induction l as [|x rest IH]; simpl; [constructor | now apply insertBy_sorted].
Qed.

(** The first descriptor of a sorted index that holds 0 and nothing
    below is a descriptor of sequence number 0. *)
Lemma sorted_head_is_zero (wire sorted : list BlobInfo) :
  Permutation wire sorted ->
  StronglySorted byBlobNum sorted ->
  (exists bi0, In bi0 wire /\ BlobNum bi0 = 0) ->
  (forall bi, In bi wire -> 0 <= BlobNum bi) ->
  exists bi, nth_error sorted 0 = Some bi /\ BlobNum bi = 0 /\ In bi wire.
Proof.
  intros Hperm Hsorted (bi0 & Hin0 & Hzero) Hnonneg.
  assert (Hin0' : In bi0 sorted) by (eapply Permutation_in; eauto).
  destruct sorted as [|bi rest]; [contradiction|].
  exists bi.
  assert (Hbi : In bi wire)
    by (apply (Permutation_in bi (Permutation_sym Hperm)); now left).
  split; [reflexivity|]. split; [|exact Hbi].
  specialize (Hnonneg bi Hbi).
  inversion Hsorted as [|? ? _ Hall]; subst.
  destruct Hin0' as [Heq | Hrest]; [now subst|].
  rewrite Forall_forall in Hall. specialize (Hall bi0 Hrest).
  unfold byBlobNum in Hall. lia.
Qed.

Lemma Read_keeps_index (W : World) (p : list byte) (m : machine)
    (r : Result (Z * option error * list byte)) (m' : machine) :
  Read W p m = (r, m') -> SDBlob_ptr (self m') = SDBlob_ptr (self m).
Proof.
  rewrite Read_unfold. cbv zeta.
  destruct (SDBlob_ptr (self m)) as [sdb|] eqn:Hsd;
    [|intros H; inversion H; subst; exact Hsd].
  destruct ((0 <=? Read_blobNum W (seekOffset (self m)))
            && (Read_blobNum W (seekOffset (self m)) <? len (BlobInfos sdb)));
    [|intros H; inversion H; subst; exact Hsd].
  destruct (nth_error (BlobInfos sdb) (Z.to_nat (Read_blobNum W (seekOffset (self m)))))
    as [bi|]; [|intros H; inversion H; subst; exact Hsd].
  destruct (http_Get_answer W (calls m) (blobInfoURL bi)) as [err|resp];
    [intros H; inversion H; subst; exact Hsd|].
  destruct (StatusCode resp =? http_StatusOK);
    [|intros H; inversion H; subst; exact Hsd].
  destruct (Body resp) as [err|enc]; [intros H; inversion H; subst; exact Hsd|].
  destruct (DecryptBlob W enc (Key sdb) (IV bi)) as [err|dec];
    [intros H; inversion H; subst; exact Hsd|].
  match goal with
  | |- (if ?cond then _ else _) = _ -> _ =>
      destruct cond; intros H; inversion H; subst; exact Hsd
  end.
Qed.

Lemma Seek_keeps_index (offset whence : Z) (m : machine)
    (r : Result (Z * option error)) (m' : machine) :
  Seek offset whence m = (r, m') -> SDBlob_ptr (self m') = SDBlob_ptr (self m).
Proof.
  rewrite Seek_unfold.
  destruct (Seek_newSeekOffset (self m) offset whence) as [v|].
  - destruct (0 >? v); intros H; inversion H; reflexivity.
  - intros H; inversion H; reflexivity.
Qed.

(** Insertion sort keeps the contract of [sort.Slice] for every
    transitive ordering. *)
Lemma insertBy_sorted_by {A : Type} (less : A -> A -> bool) (x : A) (l : list A) :
  transitiveOrdering less ->
  StronglySorted (fun a b => less b a = false) l ->
  StronglySorted (fun a b => less b a = false) (insertBy less x l).
Proof.
  intros (Hirr & Htrans & Hneg). induction 1 as [|y rest Hrest IH Hy]; simpl.
  - repeat constructor.
  - destruct (less y x) eqn:E.
    + constructor; [exact IH|].
      apply (Permutation_Forall (insertBy_perm less x rest)).
      constructor; [|exact Hy].
      destruct (less x y) eqn:E'; [|reflexivity].
      rewrite <- (Hirr y). symmetry. now apply Htrans with (b := x).
    + constructor; [now constructor|].
      constructor; [exact E|].
      apply Forall_impl with (P := fun b => less b y = false); [|exact Hy].
      intros b Hb. now apply Hneg with (b := y).
Qed.

Lemma insertionSort_sorts (W : World) :
  sort_Slice W = @insertionSort BlobInfo -> sort_Slice_sorts W.
Proof.
  intros HW less Hless l. rewrite HW. split; [apply insertionSort_perm|].
  induction l as [|x rest IH]; simpl; [constructor | now apply insertBy_sorted_by].
Qed.

(** The comparison [fetchData] passes to [sort.Slice] is a transitive
    ordering, and no element being less than an earlier one means, for
    it, ascending sequence numbers. *)
Lemma blobNumLess_transitiveOrdering : transitiveOrdering blobNumLess.
Proof.
  unfold transitiveOrdering, blobNumLess. repeat split.
  - intros a. apply Z.ltb_irrefl.
  - intros a b c H1 H2. apply Z.ltb_lt in H1, H2. apply Z.ltb_lt. lia.
  - intros a b c H1 H2. apply Z.ltb_ge in H1, H2. apply Z.ltb_ge. lia.
Qed.

Lemma sorted_by_blobNumLess (l : list BlobInfo) :
  StronglySorted (fun a b => blobNumLess b a = false) l ->
  StronglySorted byBlobNum l.
Proof.
  induction 1 as [|a rest _ IH Ha]; constructor; [exact IH|].
  apply Forall_impl with (P := fun b => blobNumLess b a = false); [|exact Ha].
  intros b Hb. unfold blobNumLess in Hb. apply Z.ltb_ge in Hb. exact Hb.
Qed.

(** A [Read] at cursor 0 of a handle whose index starts with [bi]: it
    fetches [bi], and what it returns is the start of the plaintext of
    [bi], as much of it as the buffer holds. *)
Lemma Read_at_zero (W : World) (p : list byte) (m : machine)
    (sdb : SDBlob) (bi : BlobInfo)
    (r : Result (Z * option error * list byte)) (m' : machine) :
  MaxBlobSize_ok W ->
  len p <= max_int64 ->
  SDBlob_ptr (self m) = Some sdb ->
  nth_error (BlobInfos sdb) 0 = Some bi ->
  seekOffset (self m) = 0 ->
  Read W p m = (r, m') ->
  calls m' = calls m ++ [HttpGet (blobInfoURL bi)] /\
  (forall n p', r = Returns (n, None, p') ->
     exists resp enc dec,
       http_Get_answer W (calls m) (blobInfoURL bi) = inr resp /\
       Body resp = inr enc /\
       DecryptBlob W enc (Key sdb) (IV bi) = inr dec /\
       n = Z.min (len p) (len dec) /\
       p' = firstn (Z.to_nat n) dec ++ skipn (Z.to_nat n) p) /\
  (forall resp enc dec,
     http_Get_answer W (calls m) (blobInfoURL bi) = inr resp ->
     StatusCode resp = http_StatusOK ->
     Body resp = inr enc ->
     DecryptBlob W enc (Key sdb) (IV bi) = inr dec ->
     r = Returns (Z.min (len p) (len dec), None,
                  firstn (Z.to_nat (Z.min (len p) (len dec))) dec
                  ++ skipn (Z.to_nat (Z.min (len p) (len dec))) p)).
Proof.
  intros HM Hp Hsd Hbi Hc Hread.
  assert (HM' := HM). unfold MaxBlobSize_ok, max_int64 in HM'.
  assert (Hb0 : Read_blobNum W 0 = 0).
  { rewrite Read_blobNum_floor by (unfold max_int64; auto with zarith).
    apply Z.div_0_l. lia. }
  assert (Ho0 : Read_startOffsetInBlob W 0 = 0).
  { rewrite Read_startOffsetInBlob_exact by (unfold max_int64; auto with zarith).
    rewrite Z.div_0_l by lia. reflexivity. }
  pose proof (len_range_nonneg p) as Hp0.
  split; [|split].
  - revert Hread. rewrite Read_unfold. cbv zeta. rewrite Hsd, Hc, Hb0, Ho0.
    rewrite (index_in_range (BlobInfos sdb) 0 bi) by (auto with zarith).
    change (Z.to_nat 0) with 0%nat. rewrite Hbi.
    destruct (http_Get_answer W (calls m) (blobInfoURL bi)) as [err|resp];
      [intros H; inversion H; reflexivity|].
    destruct (StatusCode resp =? http_StatusOK); [|intros H; inversion H; reflexivity].
    destruct (Body resp) as [err|enc]; [intros H; inversion H; reflexivity|].
    destruct (DecryptBlob W enc (Key sdb) (IV bi)) as [err|dec];
      [intros H; inversion H; reflexivity|].
    match goal with
    | |- (if ?cond then _ else _) = _ -> _ => destruct cond
    end; intros H; inversion H; reflexivity.
  - intros n p' Hr. rewrite Hr in Hread.
    destruct (Read_returns_inv W p m n p' m' Hp Hread)
      as (sdb' & bi' & resp & enc & dec & Hsd' & Hbi' & Hget & Hbody & Hdec & HoL & Hok).
    rewrite Hsd in Hsd'. injection Hsd' as <-.
    rewrite Hc, Hb0 in Hbi'. change (Z.to_nat 0) with 0%nat in Hbi'.
    rewrite Hbi in Hbi'. injection Hbi' as <-.
    rewrite Hc, Ho0 in Hok. rewrite Hread in Hok. injection Hok as Hn Hp' _.
    rewrite Z.sub_0_r in Hn, Hp'.
    exists resp, enc, dec. repeat (split; [assumption|]).
    rewrite Hn. exact Hp'.
  - intros resp enc dec Hget Hst Hbody Hdec.
    pose proof (len_range_nonneg dec) as Hd0.
    assert (Hb : 0 <= Read_blobNum W (seekOffset (self m))) by (rewrite Hc, Hb0; lia).
    assert (Hbi0 : nth_error (BlobInfos sdb) (Z.to_nat (Read_blobNum W (seekOffset (self m))))
                   = Some bi) by (rewrite Hc, Hb0; exact Hbi).
    assert (HoL : 0 <= Read_startOffsetInBlob W (seekOffset (self m)) <= len dec)
      by (rewrite Hc, Ho0; lia).
    assert (Hfit : Read_startOffsetInBlob W (seekOffset (self m)) + len p <= max_int64)
      by (rewrite Hc, Ho0; lia).
    pose proof (Read_ok W p m sdb bi resp enc dec Hsd Hb Hbi0 Hget Hst Hbody Hdec HoL Hfit)
      as Hok.
    rewrite Hc, Ho0 in Hok. rewrite Hread in Hok. injection Hok as Hr _.
    rewrite Hr. rewrite Z.sub_0_r. reflexivity.
Qed.

(** C9. A successful index fetch leaves the descriptors of the document
    in ascending order of sequence number, whatever their order in the
    document: [sort.Slice] sorts by the comparison it is given, and the one
    [fetchData] gives it is "smaller sequence number".  [Read] and [Seek]
    never change the index.  For a document that holds sequence number 0
    and none below, a [Read] at cursor 0 fetches a blob of sequence number
    0 and returns the first [min(len(p), L)] bytes of its plaintext. *)
Theorem fetchData_sorts_index (W : World) (m m' : machine) :
  sort_Slice_sorts W ->
  fetchData W m = (Returns None, m') ->
  exists wire sdb',
    (exists resp body,
       http_Get_answer W (calls m) (URL (self m)) = inr resp /\
       Body resp = inr body /\
       UnmarshalJSON W body = inr wire) /\
    SDBlob_ptr (self m') = Some sdb' /\
    Key sdb' = Key wire /\
    Permutation (BlobInfos wire) (BlobInfos sdb') /\
    StronglySorted (fun a b => BlobNum a <= BlobNum b) (BlobInfos sdb') /\
    (forall i j a b,
       (i < j)%nat ->
       nth_error (BlobInfos sdb') i = Some a ->
       nth_error (BlobInfos sdb') j = Some b ->
       BlobNum a <= BlobNum b) /\
    (forall p m1 r m2,
       Read W p m1 = (r, m2) -> SDBlob_ptr (self m2) = SDBlob_ptr (self m1)) /\
    (forall offset whence m1 r m2,
       Seek offset whence m1 = (r, m2) -> SDBlob_ptr (self m2) = SDBlob_ptr (self m1)) /\
    (MaxBlobSize_ok W ->
     (exists bi0, In bi0 (BlobInfos wire) /\ BlobNum bi0 = 0) ->
     (forall bi, In bi (BlobInfos wire) -> 0 <= BlobNum bi) ->
     exists bi,
       In bi (BlobInfos wire) /\ BlobNum bi = 0 /\
       forall p m1 r m2,
         len p <= max_int64 ->
         SDBlob_ptr (self m1) = Some sdb' ->
         seekOffset (self m1) = 0 ->
         Read W p m1 = (r, m2) ->
         calls m2 = calls m1 ++ [HttpGet (blobInfoURL bi)] /\
         (forall n p', r = Returns (n, None, p') ->
            exists resp enc dec,
              http_Get_answer W (calls m1) (blobInfoURL bi) = inr resp /\
              Body resp = inr enc /\
              DecryptBlob W enc (Key sdb') (IV bi) = inr dec /\
              n = Z.min (len p) (len dec) /\
              p' = firstn (Z.to_nat n) dec ++ skipn (Z.to_nat n) p) /\
         (forall resp enc dec,
            http_Get_answer W (calls m1) (blobInfoURL bi) = inr resp ->
            StatusCode resp = http_StatusOK ->
            Body resp = inr enc ->
            DecryptBlob W enc (Key sdb') (IV bi) = inr dec ->
            r = Returns (Z.min (len p) (len dec), None,
                         firstn (Z.to_nat (Z.min (len p) (len dec))) dec
                         ++ skipn (Z.to_nat (Z.min (len p) (len dec))) p))).
Proof.
  intros Hsort H. rewrite fetchData_unfold in H. cbv zeta in H.
  destruct (String.eqb (SdHash (self m)) ""); [discriminate|].
  destruct (http_Get_answer W (calls m) (URL (self m))) as [err|resp]; [discriminate|].
  destruct (Body resp) as [err|body] eqn:Hbody; [discriminate|].
  destruct (UnmarshalJSON W body) as [err|wire] eqn:Hjson; [discriminate|].
  inversion H; subst; clear H.
  destruct (Hsort blobNumLess blobNumLess_transitiveOrdering (BlobInfos wire))
    as [Hperm Hsorted0].
  pose proof (sorted_by_blobNumLess _ Hsorted0) as Hsorted.
  exists wire, (mkSDBlob (sort_Slice W blobNumLess (BlobInfos wire)) (Key wire)).
  split; [exists resp, body; auto|].
  split; [reflexivity|]. split; [reflexivity|].
  split; [exact Hperm|]. split; [exact Hsorted|].
  split.
  { simpl. generalize dependent (sort_Slice W blobNumLess (BlobInfos wire)).
    intros l _ _ Hl. induction Hl as [|x rest _ IH Hx]; intros i j a b Hij Ha Hb.
    - destruct i; discriminate.
    - destruct j as [|j]; [lia|]. simpl in Hb. destruct i as [|i]; simpl in Ha.
      + injection Ha as <-. rewrite Forall_forall in Hx.
        apply Hx. eapply nth_error_In. exact Hb.
      + apply (IH i j a b); [lia | exact Ha | exact Hb]. }
  split; [intros p m1 r m2; apply Read_keeps_index|].
  split; [intros offset whence m1 r m2; apply Seek_keeps_index|].
  intros HM Hzero Hnonneg.
  destruct (sorted_head_is_zero _ _ Hperm Hsorted Hzero Hnonneg) as (bi & Hhead & Hnum & Hin).
  exists bi. split; [exact Hin|]. split; [exact Hnum|].
  intros p m1 r m2 Hp Hsd Hc Hread.
  exact (Read_at_zero W p m1 _ bi r m2 HM Hp Hsd Hhead Hc Hread).
Qed.

Lemma fetchData_sorts_index_witness :
  let m := mkMachine demoResolved [] in
  let m' := mkMachine (demoStream 0) [HttpGet "http://blobs.lbry.io/aabb"] in
  sort_Slice_sorts demoWorld /\
  fetchData demoWorld m = (Returns None, m') /\
  BlobInfos demoSDBlob = [demoBlob1; demoBlob0] /\
  SDBlob_ptr (self m') = Some (mkSDBlob [demoBlob0; demoBlob1] [x03]) /\
  exists sdb' bi,
    SDBlob_ptr (self m') = Some sdb' /\
    Permutation (BlobInfos demoSDBlob) (BlobInfos sdb') /\
    StronglySorted (fun a b => BlobNum a <= BlobNum b) (BlobInfos sdb') /\
    BlobNum bi = 0 /\
    Read demoWorld [x00; x00; x00; x00; x00; x00] m'
      = (Returns (Z.min (len [x00; x00; x00; x00; x00; x00]) (len [x01; x02; x03; x04]),
                  None,
                  firstn (Z.to_nat (Z.min (len [x00; x00; x00; x00; x00; x00])
                                      (len [x01; x02; x03; x04])))
                    [x01; x02; x03; x04]
                  ++ skipn (Z.to_nat (Z.min (len [x00; x00; x00; x00; x00; x00])
                                        (len [x01; x02; x03; x04])))
                       [x00; x00; x00; x00; x00; x00]),
         advanced 4 (fetched "http://blobs.lbry.io/aa" m')).
Proof.
  intros m m'.
  assert (Hsort : sort_Slice_sorts demoWorld) by (apply insertionSort_sorts; reflexivity).
  assert (Hrun : fetchData demoWorld m = (Returns None, m')) by (vm_compute; reflexivity).
  split; [exact Hsort|]. split; [exact Hrun|]. split; [reflexivity|]. split; [reflexivity|].
  destruct (fetchData_sorts_index demoWorld m m' Hsort Hrun)
    as (wire & sdb' & (resp & body & _ & _ & Hjson) & Hptr & _ & Hperm & Hsorted & _ & _ & _
        & Hzero).
  simpl in Hjson. injection Hjson as <-.
  destruct Hzero as (bi & Hin & Hnum & Hread).
  - unfold MaxBlobSize_ok, max_int64. simpl. lia.
  - exists demoBlob0. split; [right; left; reflexivity | reflexivity].
  - intros bi [<-|[<-|[]]]; simpl; lia.
  - exists sdb', bi. repeat (split; [assumption|]).
    assert (Hbi : bi = demoBlob0).
    { destruct Hin as [<-|[<-|[]]]; [discriminate Hnum | reflexivity]. }
    subst bi.
    assert (Hp : len [x00; x00; x00; x00; x00; x00] <= max_int64)
      by (unfold max_int64; vm_compute; discriminate).
    assert (Hrun2 : Read demoWorld [x00; x00; x00; x00; x00; x00] m'
                    = (Returns (4, None, [x01; x02; x03; x04; x00; x00]),
                       advanced 4 (fetched "http://blobs.lbry.io/aa" m')))
      by (vm_compute; reflexivity).
    destruct (Hread _ m' _ _ Hp Hptr eq_refl Hrun2) as (_ & _ & Hexact).
    rewrite Hrun2.
    exact (f_equal (fun r => (r, advanced 4 (fetched "http://blobs.lbry.io/aa" m')))
             (Hexact (mkResponse 200 "200 OK" (inr [x01; x02; x03; x04]))
                [x01; x02; x03; x04] [x01; x02; x03; x04]
                eq_refl eq_refl eq_refl eq_refl)).
Defined.

(** * Further properties of the player *)

(** ** The contract of [io.Reader] *)

Lemma Read_error_inv (W : World) (p : list byte) (m : machine)
    (n : Z) (e : error) (p' : list byte) (m' : machine) :
  Read W p m = (Returns (n, Some e, p'), m') -> n = 0 /\ p' = p.
Proof.
  rewrite Read_unfold. cbv zeta.
  destruct (SDBlob_ptr (self m)) as [sdb|]; [|discriminate].
  destruct ((0 <=? Read_blobNum W (seekOffset (self m)))
            && (Read_blobNum W (seekOffset (self m)) <? len (BlobInfos sdb)));
    [|discriminate].
  destruct (nth_error (BlobInfos sdb) (Z.to_nat (Read_blobNum W (seekOffset (self m)))))
    as [bi|]; [|discriminate].
  destruct (http_Get_answer W (calls m) (blobInfoURL bi)) as [err|resp];
    [intros H; inversion H; auto|].
  destruct (StatusCode resp =? http_StatusOK); [|intros H; inversion H; auto].
  destruct (Body resp) as [err|enc]; [intros H; inversion H; auto|].
  destruct (DecryptBlob W enc (Key sdb) (IV bi)) as [err|dec]; [intros H; inversion H; auto|].
  match goal with
  | |- (if ?cond then _ else _) = _ -> _ => destruct cond; discriminate
  end.
Qed.

(** X1. Whatever [Read] returns, the count is between 0 and the length of
    the buffer, the buffer keeps its length and its bytes from position
    [n] on, and an error comes with a count of 0 and an untouched buffer.
    A successful [Read] into a non-empty buffer returns 0 only at the very
    end of the decrypted blob. *)
Theorem Read_io_contract (W : World) (p : list byte) (m : machine)
    (n : Z) (err : option error) (p' : list byte) (m' : machine) :
  len p <= max_int64 ->
  Read W p m = (Returns (n, err, p'), m') ->
  0 <= n <= len p /\
  len p' = len p /\
  skipn (Z.to_nat n) p' = skipn (Z.to_nat n) p /\
  (err <> None -> n = 0 /\ p' = p) /\
  (err = None -> 0 < len p -> n = 0 ->
     exists sdb bi resp enc dec,
       SDBlob_ptr (self m) = Some sdb /\
       nth_error (BlobInfos sdb) (Z.to_nat (Read_blobNum W (seekOffset (self m)))) = Some bi /\
       http_Get_answer W (calls m) (blobInfoURL bi) = inr resp /\
       Body resp = inr enc /\
       DecryptBlob W enc (Key sdb) (IV bi) = inr dec /\
       Read_startOffsetInBlob W (seekOffset (self m)) = len dec).
Proof.
  intros Hp H. pose proof (len_range_nonneg p) as Hp0.
  destruct err as [e|].
  - destruct (Read_error_inv W p m n e p' m' H) as [-> ->].
    repeat split; try lia; try discriminate.
  - destruct (Read_returns_inv W p m n p' m' Hp H)
      as (sdb & bi & resp & enc & dec & Hsd & Hbi & Hget & Hbody & Hdec & HoL & Hok).
    rewrite H in Hok. injection Hok as Hn Hp' _.
    set (o := Read_startOffsetInBlob W (seekOffset (self m))) in *.
    pose proof (len_range_nonneg dec) as Hd0.
    assert (Hn0 : 0 <= n <= len p) by lia.
    assert (Hfirst : List.length (firstn (Z.to_nat n) (skipn (Z.to_nat o) dec)) = Z.to_nat n).
    { rewrite length_firstn, length_skipn. unfold len in *. lia. }
    split; [exact Hn0|]. split; [|split; [|split]].
    + rewrite Hp', <- Hn. unfold len. rewrite length_app, Hfirst, length_skipn.
      unfold len in *. lia.
    + rewrite Hp', <- Hn. rewrite skipn_app, Hfirst, Nat.sub_diag.
      rewrite skipn_all2 by (rewrite Hfirst; lia). reflexivity.
    + intros Hne. contradiction Hne. reflexivity.
    + intros _ Hpos Hz. exists sdb, bi, resp, enc, dec.
      repeat (split; [assumption|]). fold o. lia.
Qed.

Lemma Read_io_contract_witness :
  let m := mkMachine (demoStream 1) [] in
  let p := [x00; x00; x00; x00; x00; x00] in
  0 <= 3 <= len p /\
  len [x02; x03; x04; x00; x00; x00] = len p /\
  skipn (Z.to_nat 3) [x02; x03; x04; x00; x00; x00] = skipn (Z.to_nat 3) p.
Proof.
  intros m p.
  assert (Hp : len p <= max_int64) by (unfold max_int64; vm_compute; discriminate).
  assert (Hrun : Read demoWorld p m
                 = (Returns (3, None, [x02; x03; x04; x00; x00; x00]),
                    advanced 3 (fetched "http://blobs.lbry.io/aa" m)))
    by (vm_compute; reflexivity).
  destruct (Read_io_contract demoWorld p m 3 None _ _ Hp Hrun) as (H1 & H2 & H3 & _).
  exact (conj H1 (conj H2 H3)).
Defined.

(** ** The address arithmetic *)

Lemma Read_offset_mod (W : World) (c : Z) :
  MaxBlobSize_ok W -> 0 <= c <= max_int64 ->
  Read_startOffsetInBlob W c = c mod (MaxBlobSize W - 2) - c / (MaxBlobSize W - 2).
Proof.
  intros HM Hc. assert (HM' := HM). unfold MaxBlobSize_ok in HM'.
  rewrite (Read_startOffsetInBlob_exact W c HM Hc).
  pose proof (Z.div_mod c (MaxBlobSize W - 2) ltac:(lia)) as Hdm.
  destruct (c / (MaxBlobSize W - 2) =? 0) eqn:E.
  - apply Z.eqb_eq in E. rewrite E in *. lia.
  - lia.
Qed.

Lemma Read_full_blob_address (W : World) (k j : Z) :
  MaxBlobSize_ok W ->
  0 <= k -> 0 <= j -> k + j < MaxBlobSize W - 2 ->
  k * (MaxBlobSize W - 1) + j <= max_int64 ->
  Read_blobNum W (k * (MaxBlobSize W - 1) + j) = k /\
  Read_startOffsetInBlob W (k * (MaxBlobSize W - 1) + j) = j.
Proof.
  intros HM Hk Hj Hkj Hfit. assert (HM' := HM). unfold MaxBlobSize_ok in HM'.
  assert (Hc : 0 <= k * (MaxBlobSize W - 1) + j <= max_int64) by nia.
  assert (Hq : (k * (MaxBlobSize W - 1) + j) / (MaxBlobSize W - 2) = k).
  { symmetry. apply (Z.div_unique _ _ k (k + j)); lia. }
  assert (Hr : (k * (MaxBlobSize W - 1) + j) mod (MaxBlobSize W - 2) = k + j).
  { symmetry. apply (Z.mod_unique _ _ k (k + j)); lia. }
  split.
  - rewrite Read_blobNum_floor by assumption. exact Hq.
  - rewrite Read_offset_mod by assumption. rewrite Hq, Hr. lia.
Qed.

(** X2. At a cursor [c >= 0] the offset [Read] computes is
    [c mod (MaxBlobSize - 2) - c / (MaxBlobSize - 2)].  In a stream of
    blobs of [MaxBlobSize - 1] plaintext bytes, byte [j] of blob [k] (at
    cursor [k * (MaxBlobSize - 1) + j]) is therefore addressed as blob [k],
    offset [j], as long as [k + j < MaxBlobSize - 2]. *)
Theorem Read_address_layout (W : World) :
  MaxBlobSize_ok W ->
  (forall c, 0 <= c <= max_int64 ->
     Read_startOffsetInBlob W c
       = c mod (MaxBlobSize W - 2) - c / (MaxBlobSize W - 2)) /\
  (forall k j,
     0 <= k -> 0 <= j -> k + j < MaxBlobSize W - 2 ->
     k * (MaxBlobSize W - 1) + j <= max_int64 ->
     Read_blobNum W (k * (MaxBlobSize W - 1) + j) = k /\
     Read_startOffsetInBlob W (k * (MaxBlobSize W - 1) + j) = j).
Proof.
  intros HM. split.
  - intros c Hc. now apply Read_offset_mod.
  - intros k j Hk Hj Hkj Hfit. now apply Read_full_blob_address.
Qed.

Lemma Read_address_layout_witness :
  Read_startOffsetInBlob demoWorld 4194305 = 4194305 mod 2097150 - 4194305 / 2097150 /\
  Read_blobNum demoWorld (3 * 2097151 + 100) = 3 /\
  Read_startOffsetInBlob demoWorld (3 * 2097151 + 100) = 100.
Proof.
  assert (HM : MaxBlobSize_ok demoWorld)
    by (unfold MaxBlobSize_ok, max_int64; simpl; lia).
  destruct (Read_address_layout demoWorld HM) as [Hmod Hlay].
  split.
  - apply (Hmod 4194305). unfold max_int64. lia.
  - apply (Hlay 3 100); unfold max_int64; simpl; lia.
Defined.

(** X3. At a cursor [c >= 0] with [c mod (MaxBlobSize - 2) < c / (MaxBlobSize - 2)]
    (the first [k] cursors that address blob [k]) the offset is negative:
    once the blob is fetched and decrypted the slice expression panics, so
    [Read] returns nothing and the cursor stays. *)
Theorem Read_negative_offset_panics (W : World) (p : list byte) (m : machine)
    (sdb : SDBlob) (bi : BlobInfo) (resp : Response) (enc dec : list byte) :
  MaxBlobSize_ok W ->
  let c := seekOffset (self m) in
  0 <= c <= max_int64 ->
  c mod (MaxBlobSize W - 2) < c / (MaxBlobSize W - 2) ->
  SDBlob_ptr (self m) = Some sdb ->
  nth_error (BlobInfos sdb) (Z.to_nat (c / (MaxBlobSize W - 2))) = Some bi ->
  http_Get_answer W (calls m) (blobInfoURL bi) = inr resp ->
  StatusCode resp = http_StatusOK ->
  Body resp = inr enc ->
  DecryptBlob W enc (Key sdb) (IV bi) = inr dec ->
  exists high,
    Read W p m =
      (Panics (SliceBoundsOutOfRange
                 (c mod (MaxBlobSize W - 2) - c / (MaxBlobSize W - 2)) high),
       fetched (blobInfoURL bi) m).
Proof.
  intros HM c Hc Hneg Hsd Hbi Hget Hst Hbody Hdec.
  assert (HM' := HM). unfold MaxBlobSize_ok in HM'.
  assert (Hb : Read_blobNum W c = c / (MaxBlobSize W - 2))
    by (now apply Read_blobNum_floor).
  assert (Hb0 : 0 <= c / (MaxBlobSize W - 2)) by (apply Z.div_pos; lia).
  assert (Ho : Read_startOffsetInBlob W c
               = c mod (MaxBlobSize W - 2) - c / (MaxBlobSize W - 2)).
  { rewrite (Read_startOffsetInBlob_exact W c HM Hc).
    pose proof (Z.div_mod c (MaxBlobSize W - 2) ltac:(lia)) as Hdm.
    destruct (c / (MaxBlobSize W - 2) =? 0) eqn:E.
    - apply Z.eqb_eq in E. rewrite E in *. lia.
    - lia. }
  rewrite Read_unfold. cbv zeta. fold c. rewrite Hsd, Hb, Ho.
  rewrite (index_in_range _ _ _ Hb0 Hbi), Hbi, Hget, Hst, Z.eqb_refl, Hbody, Hdec.
  replace (0 <=? c mod (MaxBlobSize W - 2) - c / (MaxBlobSize W - 2)) with false
    by (symmetry; apply Z.leb_gt; lia).
  simpl andb. cbv iota. eexists. reflexivity.
Qed.

Lemma Read_negative_offset_panics_witness :
  let m := mkMachine (demoStream 2097150) [] in
  exists high,
    Read demoWorld [x00] m =
      (Panics (SliceBoundsOutOfRange (2097150 mod 2097150 - 2097150 / 2097150) high),
       fetched (blobInfoURL demoBlob1) m).
Proof.
  intros m.
  apply (Read_negative_offset_panics demoWorld [x00] m
           (mkSDBlob [demoBlob0; demoBlob1] [x03]) demoBlob1
           (mkResponse 200 "200 OK" (inr [x04; x03])) [x04; x03] [x04; x03]).
  - unfold MaxBlobSize_ok, max_int64. simpl. lia.
  - unfold max_int64. simpl. lia.
  - vm_compute. reflexivity.
  - reflexivity.
  - reflexivity.
  - reflexivity.
  - reflexivity.
  - reflexivity.
  - reflexivity.
Defined.

(** ** Consecutive reads *)

Lemma firstn_written {A : Type} (n : nat) (l1 l2 : list A) :
  List.length l1 = n -> firstn n (l1 ++ l2) = l1.
Proof.
  intros Hl. rewrite firstn_app, Hl, Nat.sub_diag. simpl.
  rewrite app_nil_r. apply firstn_all2. lia.
Qed.

(** What a successful [Read] leaves behind, in one equation per part. *)
Lemma Read_returns_parts (W : World) (p : list byte) (m : machine)
    (n : Z) (p' : list byte) (m' : machine) :
  len p <= max_int64 ->
  Read W p m = (Returns (n, None, p'), m') ->
  let c := seekOffset (self m) in
  let o := Read_startOffsetInBlob W c in
  exists sdb bi resp enc dec,
    SDBlob_ptr (self m) = Some sdb /\
    nth_error (BlobInfos sdb) (Z.to_nat (Read_blobNum W c)) = Some bi /\
    http_Get_answer W (calls m) (blobInfoURL bi) = inr resp /\
    Body resp = inr enc /\
    DecryptBlob W enc (Key sdb) (IV bi) = inr dec /\
    0 <= o /\ 0 <= n /\ o + n <= len dec /\ n <= len p /\
    firstn (Z.to_nat n) p' = firstn (Z.to_nat n) (skipn (Z.to_nat o) dec) /\
    m' = advanced n (fetched (blobInfoURL bi) m).
Proof.
  intros Hp H c o.
  destruct (Read_returns_inv W p m n p' m' Hp H)
    as (sdb & bi & resp & enc & dec & Hsd & Hbi & Hget & Hbody & Hdec & HoL & Hok).
  fold c in Hbi, HoL, Hok. fold o in HoL, Hok.
  rewrite H in Hok. injection Hok as Hn Hp' Hm'.
  pose proof (len_range_nonneg p) as Hp0. pose proof (len_range_nonneg dec) as Hd0.
  exists sdb, bi, resp, enc, dec.
  repeat (split; [first [assumption | lia]|]).
  split; [|rewrite Hn; exact Hm'].
  rewrite Hp', <- Hn. rewrite firstn_written.
  - reflexivity.
  - rewrite length_firstn, length_skipn. unfold len in *. lia.
Qed.

(** X4. Two successful [Read]s in a row that fall into the same blob
    return consecutive ranges of its plaintext: the second starts at the
    offset where the first stopped, and each fetches the blob anew. *)
Theorem Read_twice_same_blob (W : World) (p q : list byte) (m : machine)
    (n1 : Z) (p1 : list byte) (m1 : machine)
    (n2 : Z) (q2 : list byte) (m2 : machine) :
  MaxBlobSize_ok W ->
  let c := seekOffset (self m) in
  let o := Read_startOffsetInBlob W c in
  0 <= c -> c + n1 <= max_int64 ->
  len p <= max_int64 -> len q <= max_int64 ->
  Read W p m = (Returns (n1, None, p1), m1) ->
  Read W q m1 = (Returns (n2, None, q2), m2) ->
  (c + n1) / (MaxBlobSize W - 2) = c / (MaxBlobSize W - 2) ->
  exists sdb bi dec1 dec2,
    SDBlob_ptr (self m) = Some sdb /\
    nth_error (BlobInfos sdb) (Z.to_nat (c / (MaxBlobSize W - 2))) = Some bi /\
    (exists resp enc,
       http_Get_answer W (calls m) (blobInfoURL bi) = inr resp /\
       Body resp = inr enc /\
       DecryptBlob W enc (Key sdb) (IV bi) = inr dec1) /\
    (exists resp enc,
       http_Get_answer W (calls m ++ [HttpGet (blobInfoURL bi)]) (blobInfoURL bi) = inr resp /\
       Body resp = inr enc /\
       DecryptBlob W enc (Key sdb) (IV bi) = inr dec2) /\
    firstn (Z.to_nat n1) p1 = firstn (Z.to_nat n1) (skipn (Z.to_nat o) dec1) /\
    firstn (Z.to_nat n2) q2 = firstn (Z.to_nat n2) (skipn (Z.to_nat (o + n1)) dec2) /\
    seekOffset (self m2) = add64 c (n1 + n2) /\
    calls m2 = calls m ++ [HttpGet (blobInfoURL bi); HttpGet (blobInfoURL bi)].
Proof.
  intros HM c o Hc0 Hfit Hp Hq H1 H2 Hsame.
  assert (HM' := HM). unfold MaxBlobSize_ok in HM'.
  destruct (Read_returns_parts W p m n1 p1 m1 Hp H1)
    as (sdb & bi & resp1 & enc1 & dec1 & Hsd & Hbi & Hget1 & Hbody1 & Hdec1
        & Ho0 & Hn1 & Hin1 & _ & Hout1 & Hm1).
  fold c in Hbi. fold o in Ho0, Hin1, Hout1.
  assert (Hc1 : seekOffset (self m1) = c + n1).
  { rewrite Hm1. simpl. fold c. unfold add64. apply wrap64_id.
    unfold int64_range, min_int64, max_int64 in *. lia. }
  assert (Hsd1 : SDBlob_ptr (self m1) = Some sdb) by (rewrite Hm1; exact Hsd).
  assert (Hlog1 : calls m1 = calls m ++ [HttpGet (blobInfoURL bi)])
    by (rewrite Hm1; reflexivity).
  destruct (Read_returns_parts W q m1 n2 q2 m2 Hq H2)
    as (sdb' & bi' & resp2 & enc2 & dec2 & Hsd' & Hbi' & Hget2 & Hbody2 & Hdec2
        & _ & Hn2 & _ & _ & Hout2 & Hm2).
  rewrite Hsd1 in Hsd'. injection Hsd' as <-.
  rewrite Hc1 in Hbi', Hout2.
  assert (Hcr : 0 <= c <= max_int64) by lia.
  assert (Hcr1 : 0 <= c + n1 <= max_int64) by lia.
  rewrite (Read_blobNum_floor W c HM Hcr) in Hbi.
  rewrite (Read_blobNum_floor W (c + n1) HM Hcr1), Hsame in Hbi'.
  rewrite Hbi in Hbi'. injection Hbi' as <-.
  assert (Ho2 : Read_startOffsetInBlob W (c + n1) = o + n1).
  { unfold o. rewrite !Read_offset_mod by assumption. rewrite Hsame.
    pose proof (Z.div_mod c (MaxBlobSize W - 2) ltac:(lia)).
    pose proof (Z.div_mod (c + n1) (MaxBlobSize W - 2) ltac:(lia)) as Hdm.
    rewrite Hsame in Hdm. lia. }
  rewrite Ho2 in Hout2. rewrite Hlog1 in Hget2.
  exists sdb, bi, dec1, dec2.
  split; [exact Hsd|]. split; [exact Hbi|].
  split; [exists resp1, enc1; auto|]. split; [exists resp2, enc2; auto|].
  split; [exact Hout1|]. split; [exact Hout2|].
  rewrite Hm2. simpl. rewrite Hc1, Hlog1, <- app_assoc. simpl.
  split; [|reflexivity].
  unfold add64. f_equal. lia.
Qed.

Lemma Read_twice_same_blob_witness :
  let m := mkMachine (demoSingle 1) [] in
  let m1 := advanced 2 (fetched "http://blobs.lbry.io/aa" m) in
  let m2 := advanced 1 (fetched "http://blobs.lbry.io/aa" m1) in
  Read demoWorld [x00; x00] m = (Returns (2, None, [x02; x03]), m1) /\
  Read demoWorld [x00; x00] m1 = (Returns (1, None, [x04; x00]), m2) /\
  exists dec1 dec2,
    firstn (Z.to_nat 2) [x02; x03]
      = firstn (Z.to_nat 2) (skipn (Z.to_nat (Read_startOffsetInBlob demoWorld 1)) dec1) /\
    firstn (Z.to_nat 1) [x04; x00]
      = firstn (Z.to_nat 1)
          (skipn (Z.to_nat (Read_startOffsetInBlob demoWorld 1 + 2)) dec2) /\
    DecryptBlob demoWorld [x01; x02; x03; x04] [x03] [x01] = inr dec1.
Proof.
  intros m m1 m2.
  assert (H1 : Read demoWorld [x00; x00] m = (Returns (2, None, [x02; x03]), m1))
    by (vm_compute; reflexivity).
  assert (H2 : Read demoWorld [x00; x00] m1 = (Returns (1, None, [x04; x00]), m2))
    by (vm_compute; reflexivity).
  split; [exact H1|]. split; [exact H2|].
  assert (HM : MaxBlobSize_ok demoWorld)
    by (unfold MaxBlobSize_ok, max_int64; simpl; lia).
  assert (Hlen : len [x00; x00] <= max_int64)
    by (unfold max_int64; vm_compute; discriminate).
  assert (Hc0 : 0 <= seekOffset (self m)) by (simpl; lia).
  assert (Hfit : seekOffset (self m) + 2 <= max_int64)
    by (unfold max_int64; simpl; lia).
  assert (Hsame : (seekOffset (self m) + 2) / (MaxBlobSize demoWorld - 2)
                  = seekOffset (self m) / (MaxBlobSize demoWorld - 2))
    by reflexivity.
  destruct (Read_twice_same_blob demoWorld [x00; x00] [x00; x00] m
              2 [x02; x03] m1 1 [x04; x00] m2 HM Hc0 Hfit Hlen Hlen H1 H2 Hsame)
    as (sdb & bi & dec1 & dec2 & Hsd & Hbi & (resp & enc & Hget & Hbody & Hdec) & _
        & Hout1 & Hout2 & _).
  exists dec1, dec2. split; [exact Hout1|]. split; [exact Hout2|].
  injection Hsd as <-. injection Hbi as <-.
  injection Hget as <-. injection Hbody as <-. exact Hdec.
Defined.

(** X5. Let the cursor be [k * (MaxBlobSize - 1) + j] with [0 <= k],
    [0 <= j], [k + j < MaxBlobSize - 2] and [k + 1 < MaxBlobSize - 2],
    and let [(k+1) * (MaxBlobSize - 1)] and [j + len(p)] fit in an int64.
    If the descriptor at index [k] is fetched with status 200 and decrypts
    to [MaxBlobSize - 1] bytes, and [p] has room for [MaxBlobSize - 1 - j]
    bytes, then [Read] returns the [MaxBlobSize - 1 - j] bytes of that
    plaintext from byte [j] on and leaves the cursor at
    [(k+1) * (MaxBlobSize - 1)], which [Read] addresses as index [k+1],
    offset 0.  (Without the two bounds on [k] the address computed by
    [Read] drifts away from [k] and [j]: the divisor is [MaxBlobSize - 2].) *)
Theorem Read_finishes_full_blob (W : World) (p : list byte) (m : machine)
    (sdb : SDBlob) (bi : BlobInfo) (resp : Response) (enc dec : list byte)
    (k j : Z) :
  MaxBlobSize_ok W ->
  0 <= k -> 0 <= j -> k + j < MaxBlobSize W - 2 -> k + 1 < MaxBlobSize W - 2 ->
  (k + 1) * (MaxBlobSize W - 1) <= max_int64 ->
  seekOffset (self m) = k * (MaxBlobSize W - 1) + j ->
  SDBlob_ptr (self m) = Some sdb ->
  nth_error (BlobInfos sdb) (Z.to_nat k) = Some bi ->
  http_Get_answer W (calls m) (blobInfoURL bi) = inr resp ->
  StatusCode resp = http_StatusOK ->
  Body resp = inr enc ->
  DecryptBlob W enc (Key sdb) (IV bi) = inr dec ->
  len dec = MaxBlobSize W - 1 ->
  MaxBlobSize W - 1 - j <= len p ->
  j + len p <= max_int64 ->
  exists m1,
    Read W p m =
      (Returns (MaxBlobSize W - 1 - j, None,
                skipn (Z.to_nat j) dec ++ skipn (Z.to_nat (MaxBlobSize W - 1 - j)) p),
       m1) /\
    seekOffset (self m1) = (k + 1) * (MaxBlobSize W - 1) /\
    Read_blobNum W (seekOffset (self m1)) = k + 1 /\
    Read_startOffsetInBlob W (seekOffset (self m1)) = 0.
Proof.
  intros HM Hk Hj Hkj Hk1 Hfit Hc Hsd Hbi Hget Hst Hbody Hdec HL Hroom Hbuf.
  assert (HM' := HM). unfold MaxBlobSize_ok in HM'.
  assert (Hfit0 : k * (MaxBlobSize W - 1) + j <= max_int64) by nia.
  destruct (Read_full_blob_address W k j HM Hk Hj Hkj Hfit0) as [Hb Ho].
  destruct (Read_full_blob_address W (k + 1) 0 HM) as [Hb1 Ho1]; try lia.
  rewrite Z.add_0_r in Hb1, Ho1.
  exists (advanced (MaxBlobSize W - 1 - j) (fetched (blobInfoURL bi) m)).
  assert (Hcur : seekOffset (self (advanced (MaxBlobSize W - 1 - j)
                                     (fetched (blobInfoURL bi) m)))
                 = (k + 1) * (MaxBlobSize W - 1)).
  { simpl. rewrite Hc. unfold add64.
    replace (k * (MaxBlobSize W - 1) + j + (MaxBlobSize W - 1 - j))
      with ((k + 1) * (MaxBlobSize W - 1)) by lia.
    apply wrap64_id. unfold int64_range, min_int64, max_int64 in *. nia. }
  rewrite Hcur. split; [|auto].
  rewrite (Read_ok W p m sdb bi resp enc dec Hsd);
    rewrite ?Hc, ?Hb, ?Ho, ?HL; try first [assumption | lia].
  replace (Z.min (j + len p) (MaxBlobSize W - 1) - j) with (MaxBlobSize W - 1 - j) by lia.
  rewrite firstn_all2; [reflexivity|].
  rewrite length_skipn. unfold len in HL. lia.
Qed.

Lemma Read_finishes_full_blob_witness :
  let m := mkMachine (tinyStream 2) [] in
  exists m1,
    Read tinyWorld [x00; x00; x00; x00] m =
      (Returns (6 - 1 - 2, None,
                skipn (Z.to_nat 2) [x00; x01; x02; x03; x04]
                ++ skipn (Z.to_nat (6 - 1 - 2)) [x00; x00; x00; x00]),
       m1) /\
    seekOffset (self m1) = (0 + 1) * (6 - 1) /\
    Read_blobNum tinyWorld (seekOffset (self m1)) = 0 + 1 /\
    Read_startOffsetInBlob tinyWorld (seekOffset (self m1)) = 0.
Proof.
  intros m.
  apply (Read_finishes_full_blob tinyWorld [x00; x00; x00; x00] m
           (mkSDBlob [tinyBlob0; tinyBlob1] [x03]) tinyBlob0
           (mkResponse 200 "200 OK" (inr [x00; x01; x02; x03; x04]))
           [x00; x01; x02; x03; x04] [x00; x01; x02; x03; x04] 0 2);
    try reflexivity; try (unfold MaxBlobSize_ok, max_int64; simpl; lia);
    try (unfold max_int64; vm_compute; discriminate).
Defined.

(** ** Composition of seeks *)

(** X6. Two seeks relative to the current position add up: when the
    intermediate and the final position are not negative (and fit
    [int64]), seeking by [a] and then by [b] is seeking by [a + b]; in
    particular seeking by [a] and then by [-a] restores the cursor. *)
Theorem Seek_Current_compose (a b : Z) (m : machine) :
  let c := seekOffset (self m) in
  0 <= c + a <= max_int64 ->
  0 <= c + a + b <= max_int64 ->
  (Seek a io_SeekCurrent ;; Seek b io_SeekCurrent) m = Seek (a + b) io_SeekCurrent m /\
  Seek (a + b) io_SeekCurrent m = (Returns (c + a + b, None), moved (c + a + b) m).
Proof.
  intros c Ha Hab.
  assert (Hexact : forall z, 0 <= z <= max_int64 -> wrap64 z = z).
  { intros z Hz. apply wrap64_id. unfold int64_range, min_int64, max_int64 in *. lia. }
  assert (H2 : Seek (a + b) io_SeekCurrent m = (Returns (c + a + b, None), moved (c + a + b) m)).
  { apply Seek_to; [|lia]. unfold Seek_newSeekOffset, add64. simpl. fold c.
    rewrite Z.add_assoc. now rewrite Hexact. }
  split; [|exact H2]. rewrite H2.
  unfold bind at 1.
  rewrite (Seek_to a io_SeekCurrent (c + a)); [|unfold Seek_newSeekOffset, add64; simpl; fold c; now rewrite Hexact | lia].
  rewrite (Seek_to b io_SeekCurrent (c + a + b)); [reflexivity | | lia].
  unfold Seek_newSeekOffset, add64. simpl. now rewrite Hexact.
Qed.

Lemma Seek_Current_compose_witness :
  let m := mkMachine (demoStream 5) [] in
  (Seek 7 io_SeekCurrent ;; Seek (-7) io_SeekCurrent) m = Seek (7 + -7) io_SeekCurrent m /\
  Seek (7 + -7) io_SeekCurrent m = (Returns (5 + 7 + -7, None), moved (5 + 7 + -7) m).
Proof.
  intros m.
  apply (Seek_Current_compose 7 (-7) m); unfold max_int64; simpl; lia.
Defined.

(** ** What a sequence of calls leaves alone *)

Lemma sameButCursor_refl (s : reflectedStream) : sameButCursor s s.
Proof. unfold sameButCursor. repeat split. Qed.

Lemma sameButCursor_set (s : reflectedStream) (v : Z) :
  sameButCursor s (set_seekOffset v s).
Proof. unfold sameButCursor. repeat split. Qed.

Lemma sameButCursor_trans (s1 s2 s3 : reflectedStream) :
  sameButCursor s1 s2 -> sameButCursor s2 s3 -> sameButCursor s1 s3.
Proof.
  unfold sameButCursor.
  intros (A1 & A2 & A3 & A4 & A5 & A6 & A7) (B1 & B2 & B3 & B4 & B5 & B6 & B7).
  repeat split; congruence.
Qed.

Lemma Seek_step (offset whence : Z) (m : machine)
    (r : Result (Z * option error)) (m' : machine) :
  Seek offset whence m = (r, m') ->
  sameButCursor (self m) (self m') /\ calls m' = calls m /\ exists v, r = Returns v.
Proof.
  rewrite Seek_unfold.
  destruct (Seek_newSeekOffset (self m) offset whence) as [v|].
  - destruct (0 >? v); intros H; inversion H; subst;
      (split; [first [apply sameButCursor_refl | apply sameButCursor_set]|]);
      (split; [reflexivity | eexists; reflexivity]).
  - intros H; inversion H; subst.
    split; [apply sameButCursor_refl|]. split; [reflexivity | eexists; reflexivity].
Qed.

Lemma Read_step (W : World) (p : list byte) (m : machine)
    (r : Result (Z * option error * list byte)) (m' : machine) :
  Read W p m = (r, m') ->
  sameButCursor (self m) (self m') /\
  (calls m' = calls m \/
   exists sdb bi,
     SDBlob_ptr (self m) = Some sdb /\ In bi (BlobInfos sdb) /\
     calls m' = calls m ++ [HttpGet (blobInfoURL bi)]).
Proof.
  rewrite Read_unfold. cbv zeta.
  destruct (SDBlob_ptr (self m)) as [sdb|] eqn:Hsd;
    [|intros H; inversion H; subst; split; [apply sameButCursor_refl | left; reflexivity]].
  destruct ((0 <=? Read_blobNum W (seekOffset (self m)))
            && (Read_blobNum W (seekOffset (self m)) <? len (BlobInfos sdb)));
    [|intros H; inversion H; subst; split; [apply sameButCursor_refl | left; reflexivity]].
  destruct (nth_error (BlobInfos sdb) (Z.to_nat (Read_blobNum W (seekOffset (self m)))))
    as [bi|] eqn:Hbi;
    [|intros H; inversion H; subst; split; [apply sameButCursor_refl | left; reflexivity]].
  apply nth_error_In in Hbi.
  assert (Hdone : forall n,
            sameButCursor (self m) (self (advanced n (fetched (blobInfoURL bi) m))) /\
            (calls (advanced n (fetched (blobInfoURL bi) m)) = calls m \/
             exists sdb0 bi0,
               Some sdb = Some sdb0 /\ In bi0 (BlobInfos sdb0) /\
               calls (advanced n (fetched (blobInfoURL bi) m))
                 = calls m ++ [HttpGet (blobInfoURL bi0)])).
  { intros n. split; [apply sameButCursor_set|]. right. exists sdb, bi. auto. }
  assert (Hpanic :
            sameButCursor (self m) (self (fetched (blobInfoURL bi) m)) /\
            (calls (fetched (blobInfoURL bi) m) = calls m \/
             exists sdb0 bi0,
               Some sdb = Some sdb0 /\ In bi0 (BlobInfos sdb0) /\
               calls (fetched (blobInfoURL bi) m) = calls m ++ [HttpGet (blobInfoURL bi0)])).
  { split; [apply sameButCursor_refl|]. right. exists sdb, bi. auto. }
  destruct (http_Get_answer W (calls m) (blobInfoURL bi)) as [err|resp];
    [intros H; inversion H; subst; apply Hdone|].
  destruct (StatusCode resp =? http_StatusOK);
    [|intros H; inversion H; subst; apply Hdone].
  destruct (Body resp) as [err|enc]; [intros H; inversion H; subst; apply Hdone|].
  destruct (DecryptBlob W enc (Key sdb) (IV bi)) as [err|dec];
    [intros H; inversion H; subst; apply Hdone|].
  match goal with
  | |- (if ?cond then _ else _) = _ -> _ => destruct cond
  end; intros H; inversion H; subst; [apply Hdone | apply Hpanic].
Qed.



(** ** Before the index is fetched *)

Lemma resolve_keeps_index (W : World) (m : machine)
    (r : Result (option error)) (m' : machine) :
  resolve W m = (r, m') ->
  SDBlob_ptr (self m') = SDBlob_ptr (self m) /\
  seekOffset (self m') = seekOffset (self m) /\
  URI (self m') = URI (self m).
Proof.
  rewrite resolve_unfold. cbv zeta.
  destruct (String.eqb (URI (self m)) ""); [intros H; inversion H; auto|].
  destruct (lbrynet_Resolve W (calls m) (URI (self m))) as [err|claim];
    [intros H; inversion H; auto|].
  destruct (GetStream claim) as [stream|]; [|intros H; inversion H; auto].
  destruct (match Stream_Fee stream with Some fee => Amount fee >? 0 | None => false end);
    [intros H; inversion H; auto|].
  destruct (Stream_Source stream); intros H; inversion H; auto.
Qed.

(** X8. On the handle [newReflectedStream] hands back, whatever the
    outcome of the resolution, a [Read] panics on the nil index without
    calling anything outside, while a [Seek] works as on any handle:
    reading needs [fetchData] first. *)
Theorem Read_before_fetchData (W : World) (uri : string) (log : list event)
    (r : Result (option error)) (m : machine) :
  newReflectedStream W uri log = (r, m) ->
  (forall p, Read W p m = (Panics NilPointerDereference, m)) /\
  seekOffset (self m) = 0 /\
  (forall offset, 0 <= offset ->
     Seek offset io_SeekStart m = (Returns (offset, None), moved offset m)).
Proof.
  unfold newReflectedStream. intros H.
  destruct (resolve_keeps_index W _ r m H) as (Hptr & Hcur & _). simpl in Hptr, Hcur.
  split; [|split; [exact Hcur|]].
  - intros p. rewrite Read_unfold. cbv zeta. rewrite Hptr. reflexivity.
  - intros offset Hoff. now apply Seek_to.
Qed.

Lemma Read_before_fetchData_witness :
  let m := mkMachine demoResolved [Resolved "lbry://free"] in
  newReflectedStream demoWorld "lbry://free" [] = (Returns None, m) /\
  Read demoWorld [x00] m = (Panics NilPointerDereference, m) /\
  Seek 3 io_SeekStart m = (Returns (3, None), moved 3 m).
Proof.
  intros m.
  assert (Hrun : newReflectedStream demoWorld "lbry://free" [] = (Returns None, m))
    by (vm_compute; reflexivity).
  destruct (Read_before_fetchData demoWorld "lbry://free" [] _ m Hrun) as (Hread & _ & Hseek).
  split; [exact Hrun|]. split; [apply Hread | apply Hseek; lia].
Defined.

(** ** Failures of the resolution *)

(** X9. With a non-empty URI, [resolve] calls the resolver once.  An error
    of the resolver is returned as it is; a claim that is not a stream, or
    a free stream without a source, makes [resolve] panic on the nil
    pointer; in all three cases the handle keeps every field. *)
Theorem resolve_failures (W : World) (m : machine) :
  let uri := URI (self m) in
  uri <> "" ->
  (forall err,
     lbrynet_Resolve W (calls m) uri = inl err ->
     resolve W m = (Returns (Some err), resolved uri m)) /\
  (forall claim,
     lbrynet_Resolve W (calls m) uri = inr claim ->
     GetStream claim = None ->
     resolve W m = (Panics NilPointerDereference, resolved uri m)) /\
  (forall claim stream,
     lbrynet_Resolve W (calls m) uri = inr claim ->
     GetStream claim = Some stream ->
     ~ paid stream ->
     Stream_Source stream = None ->
     resolve W m = (Panics NilPointerDereference, resolved uri m)) /\
  (forall r m', resolve W m = (r, m') -> calls m' = calls m ++ [Resolved uri]).
Proof.
  intros uri Hu. apply String.eqb_neq in Hu.
  split; [|split; [|split]].
  - intros err Hres. rewrite resolve_unfold. cbv zeta. fold uri. rewrite Hu, Hres. reflexivity.
  - intros claim Hres Hstream. rewrite resolve_unfold. cbv zeta. fold uri.
    rewrite Hu, Hres, Hstream. reflexivity.
  - intros claim stream Hres Hstream Hfree Hsource.
    rewrite resolve_unfold. cbv zeta. fold uri. rewrite Hu, Hres, Hstream, Hsource.
    destruct (match Stream_Fee stream with Some fee => Amount fee >? 0 | None => false end)
      eqn:Hfee; [apply paid_test in Hfee; contradiction | reflexivity].
  - intros r m'. rewrite resolve_unfold. cbv zeta. fold uri. rewrite Hu.
    destruct (lbrynet_Resolve W (calls m) uri) as [err|claim];
      [intros H; inversion H; reflexivity|].
    destruct (GetStream claim) as [stream|]; [|intros H; inversion H; reflexivity].
    destruct (match Stream_Fee stream with Some fee => Amount fee >? 0 | None => false end);
      [intros H; inversion H; reflexivity|].
    destruct (Stream_Source stream); intros H; inversion H; reflexivity.
Qed.

Lemma resolve_failures_witness :
  let m := mkMachine (zeroStream "lbry://nothing") [] in
  resolve demoWorld m = (Returns (Some (foreign "not found")), resolved "lbry://nothing" m).
Proof.
  intros m.
  assert (Hu : URI (self m) <> "") by discriminate.
  destruct (resolve_failures demoWorld m Hu) as (Herr & _).
  apply Herr. reflexivity.
Defined.

(** ** Failures of the index fetch *)

(** X10. Without an [SdHash], [fetchData] fails before calling anything.
    Otherwise it makes one request, to [reflectorURL + SdHash]; a
    transport error, an unreadable body and an unparsable descriptor are
    returned as they are and leave the handle as it was.  The status code
    of the response is not looked at: whatever it is, a body that parses
    is accepted.  [fetchData] never panics. *)
Theorem fetchData_failures (W : World) (m : machine) :
  (SdHash (self m) = "" ->
     fetchData W m
       = (Returns (Some (errors_New "no sd hash set, call `resolve` first")), m)) /\
  (forall err,
     SdHash (self m) <> "" ->
     (http_Get_answer W (calls m) (URL (self m)) = inl err \/
      exists resp,
        http_Get_answer W (calls m) (URL (self m)) = inr resp /\
        (Body resp = inl err \/
         exists body, Body resp = inr body /\ UnmarshalJSON W body = inl err)) ->
     fetchData W m = (Returns (Some err), fetched (URL (self m)) m)) /\
  (forall resp body sdb,
     SdHash (self m) <> "" ->
     http_Get_answer W (calls m) (URL (self m)) = inr resp ->
     Body resp = inr body ->
     UnmarshalJSON W body = inr sdb ->
     exists m',
       fetchData W m = (Returns None, m') /\
       calls m' = calls m ++ [HttpGet (URL (self m))] /\
       seekOffset (self m') = seekOffset (self m)) /\
  (forall r m',
     fetchData W m = (r, m') ->
     (exists v, r = Returns v) /\
     (r <> Returns None -> self m' = self m)).
Proof.
  split; [|split; [|split]].
  - intros Hsd. rewrite fetchData_unfold. cbv zeta. rewrite Hsd. reflexivity.
  - intros err Hsd Hcause. apply String.eqb_neq in Hsd.
    rewrite fetchData_unfold. cbv zeta. rewrite Hsd.
    destruct Hcause as [Hget | (resp & Hget & [Hbody | (body & Hbody & Hjson)])];
      rewrite Hget; [reflexivity | rewrite Hbody; reflexivity |
                     rewrite Hbody, Hjson; reflexivity].
  - intros resp body sdb Hsd Hget Hbody Hjson. apply String.eqb_neq in Hsd.
    rewrite fetchData_unfold. cbv zeta. rewrite Hsd, Hget, Hbody, Hjson.
    eexists. split; [reflexivity|]. split; reflexivity.
  - intros r m'. rewrite fetchData_unfold. cbv zeta.
    destruct (String.eqb (SdHash (self m)) "");
      [intros H; inversion H; subst; split; [eexists|]; reflexivity|].
    destruct (http_Get_answer W (calls m) (URL (self m))) as [err|resp];
      [intros H; inversion H; subst; split; [eexists|]; reflexivity|].
    destruct (Body resp) as [err|body];
      [intros H; inversion H; subst; split; [eexists|]; reflexivity|].
    destruct (UnmarshalJSON W body) as [err|sdb];
      [intros H; inversion H; subst; split; [eexists|]; reflexivity|].
    intros H; inversion H; subst. split; [eexists; reflexivity|].
    intros Hne. contradiction Hne. reflexivity.
Qed.

Lemma fetchData_failures_witness :
  let m0 := mkMachine (zeroStream "lbry://free") [] in
  let m := mkMachine (mkReflectedStream "lbry://free" 0 0 "ffff" 0 "" None 0) [] in
  fetchData demoWorld m0
    = (Returns (Some (errors_New "no sd hash set, call `resolve` first")), m0) /\
  exists m',
    fetchData demoWorld m = (Returns None, m') /\
    calls m' = calls m ++ [HttpGet (URL (self m))] /\
    seekOffset (self m') = seekOffset (self m).
Proof.
  intros m0 m.
  destruct (fetchData_failures demoWorld m0) as (Hnone & _).
  destruct (fetchData_failures demoWorld m) as (_ & _ & Hok & _).
  split; [apply Hnone; reflexivity|].
  apply (Hok (mkResponse 404 "404 Not Found" (inr [])) [] demoSDBlob).
  - discriminate.
  - reflexivity.
  - reflexivity.
  - reflexivity.
Defined.

(** ** The size estimate and the order of the descriptors *)

Lemma sumZ_perm (l1 l2 : list Z) : Permutation l1 l2 -> sumZ l1 = sumZ l2.
Proof.
  induction 1 as [|x l l' _ IH|x y l|l l' l'' _ IH1 _ IH2]; simpl.
  - reflexivity.
  - unfold sumZ in *. simpl. now rewrite IH.
  - unfold sumZ. simpl. lia.
  - congruence.
Qed.

Lemma fold_addBlobSize_exact (W : World) (blobs : list BlobInfo) (size : Z) :
  int64_range size ->
  fold_left (addBlobSize W) blobs size
  = wrap64 (size + sumZ (map (plainLength W) blobs)).
Proof.
  revert size. induction blobs as [|bi rest IH]; intros size Hs; simpl.
  - rewrite Z.add_0_r. symmetry. now apply wrap64_id.
  - rewrite IH by (rewrite addBlobSize_plainLength; apply wrap64_range).
    rewrite addBlobSize_plainLength, wrap64_add_l.
    unfold sumZ. simpl. f_equal. lia.
Qed.

(** X11. The size loop of [fetchData] gives the same total for every
    order of the descriptors; so, although the estimate is taken before
    the index is sorted, after a successful fetch of a handle of size 0
    [Size] is the estimate of the index as it is stored. *)
Theorem size_estimate_order_free (W : World) :
  (forall l1 l2,
     Permutation l1 l2 ->
     fold_left (addBlobSize W) l1 0 = fold_left (addBlobSize W) l2 0) /\
  (forall m m' stored,
     sort_Slice_ok W ->
     Size (self m) = 0 ->
     fetchData W m = (Returns None, m') ->
     SDBlob_ptr (self m') = Some stored ->
     Size (self m') = sub64 (fold_left (addBlobSize W) (BlobInfos stored) 0) 15 /\
     Size (self m') = wrap64 (estimatedSize W (BlobInfos stored))).
Proof.
  assert (H0 : int64_range 0) by (unfold int64_range, min_int64, max_int64; lia).
  assert (Hperm : forall l1 l2, Permutation l1 l2 ->
            fold_left (addBlobSize W) l1 0 = fold_left (addBlobSize W) l2 0).
  { intros l1 l2 Hp. rewrite !fold_addBlobSize_exact by exact H0.
    f_equal. f_equal. apply sumZ_perm. now apply Permutation_map. }
  split; [exact Hperm|].
  intros m m' stored Hsort Hz H Hptr.
  rewrite fetchData_unfold in H. cbv zeta in H.
  destruct (String.eqb (SdHash (self m)) ""); [discriminate|].
  destruct (http_Get_answer W (calls m) (URL (self m))) as [err|resp]; [discriminate|].
  destruct (Body resp) as [err|body]; [discriminate|].
  destruct (UnmarshalJSON W body) as [err|wire]; [discriminate|].
  inversion H; subst; clear H. simpl in Hptr. injection Hptr as <-.
  simpl. rewrite Hz. simpl.
  destruct (Hsort (BlobInfos wire)) as [Hp _].
  rewrite (Hperm _ _ Hp).
  split; [reflexivity | apply size_loop_then_15].
Qed.

Lemma size_estimate_order_free_witness :
  let m := mkMachine demoResolved [] in
  let m' := mkMachine (demoStream 0) [HttpGet "http://blobs.lbry.io/aabb"] in
  fold_left (addBlobSize demoWorld) [demoBlob1; demoBlob0] 0
    = fold_left (addBlobSize demoWorld) [demoBlob0; demoBlob1] 0 /\
  Size (self m') = wrap64 (estimatedSize demoWorld [demoBlob0; demoBlob1]).
Proof.
  intros m m'.
  destruct (size_estimate_order_free demoWorld) as [Hperm Hstored].
  split.
  - apply Hperm. apply perm_swap.
  - apply (Hstored m m' (mkSDBlob [demoBlob0; demoBlob1] [x03])).
    + apply insertionSort_ok. reflexivity.
    + reflexivity.
    + vm_compute. reflexivity.
    + reflexivity.
Defined.

(** ** Blob addresses *)

Lemma hex_digit_inj (u v : N) :
  (u < 16)%N -> (v < 16)%N -> hex_digit u = hex_digit v -> u = v.
Proof.
  intros Hu Hv H.
  assert (Hnat : forall n k : nat,
            (n < 16)%nat -> (k < 16)%nat ->
            hex_digit (N.of_nat n) = hex_digit (N.of_nat k) -> n = k).
  { intros n k Hn Hk.
    do 16 (destruct n as [|n];
           [do 16 (destruct k as [|k];
                   [vm_compute; intros E; first [reflexivity | discriminate E]|]);
            lia|]).
    lia. }
  rewrite <- (N2Nat.id u), <- (N2Nat.id v) in H.
  apply Hnat in H; [|lia|lia].
  now apply N2Nat.inj.
Qed.

Lemma byte_nibbles (b : byte) :
  let n := Strings.Byte.to_N b in
  (N.shiftr n 4 < 16)%N /\ (N.land n 15 < 16)%N /\
  n = (16 * N.shiftr n 4 + N.land n 15)%N.
Proof. destruct b; vm_compute; repeat split. Qed.

Lemma hex_EncodeToString_inj (a b : list byte) :
  hex_EncodeToString a = hex_EncodeToString b -> a = b.
Proof.
  revert b. induction a as [|x a IH]; intros [|y b] H;
    cbn [hex_EncodeToString] in H; try discriminate; [reflexivity|].
  injection H as Hhi Hlo Hrest.
  destruct (byte_nibbles x) as (Hx1 & Hx2 & Hx).
  destruct (byte_nibbles y) as (Hy1 & Hy2 & Hy).
  cbv zeta in *.
  assert (Hhi' : N.shiftr (Strings.Byte.to_N x) 4 = N.shiftr (Strings.Byte.to_N y) 4)
    by (apply hex_digit_inj; assumption).
  assert (Hlo' : N.land (Strings.Byte.to_N x) 15 = N.land (Strings.Byte.to_N y) 15)
    by (apply hex_digit_inj; assumption).
  assert (Hn : Strings.Byte.to_N x = Strings.Byte.to_N y)
    by (rewrite Hx, Hhi', Hlo'; symmetry; exact Hy).
  assert (Hxy : Some x = Some y).
  { transitivity (Strings.Byte.of_N (Strings.Byte.to_N x)).
    - symmetry. apply Strings.Byte.of_to_N.
    - rewrite Hn. apply Strings.Byte.of_to_N. }
  injection Hxy as <-. f_equal. now apply IH.
Qed.

Lemma append_cancel (s a b : string) :
  String.append s a = String.append s b -> a = b.
Proof.
  induction s as [|c s IH]; simpl; intros H; [exact H|].
  injection H as H. now apply IH.
Qed.

Lemma append_length (s a : string) :
  String.length (String.append s a) = (String.length s + String.length a)%nat.
Proof. induction s as [|c s IH]; simpl; [reflexivity | now rewrite IH]. Qed.

Lemma hex_EncodeToString_length (l : list byte) :
  String.length (hex_EncodeToString l) = (2 * List.length l)%nat.
Proof. induction l as [|b l IH]; simpl; [reflexivity | rewrite IH; lia]. Qed.

(** X12. The address of a blob is the reflector's URL followed by two
    hexadecimal digits for every byte of the blob's hash; two descriptors
    have the same address exactly when they have the same hash. *)
Theorem blobInfoURL_by_hash (a b : BlobInfo) :
  (blobInfoURL a = blobInfoURL b <-> BlobHash a = BlobHash b) /\
  String.length (blobInfoURL a) = (21 + 2 * List.length (BlobHash a))%nat.
Proof.
  unfold blobInfoURL. split; [split|].
  - intros H. apply append_cancel in H. now apply hex_EncodeToString_inj.
  - intros H. now rewrite H.
  - rewrite append_length, hex_EncodeToString_length. reflexivity.
Qed.

(** ** The stages of [PlayURI] *)

Lemma resolve_ok_inv (W : World) (m m' : machine) :
  resolve W m = (Returns None, m') ->
  URI (self m) <> "" /\
  exists claim stream source,
    lbrynet_Resolve W (calls m) (URI (self m)) = inr claim /\
    GetStream claim = Some stream /\
    Stream_Source stream = Some source /\
    m' = mkMachine
           (set_resolved (hex_EncodeToString (Source_SdHash source))
              (MediaType source) (wrap64 (Source_Size source)) (self m))
           (calls m ++ [Resolved (URI (self m))]).
Proof.
  rewrite resolve_unfold. cbv zeta.
  destruct (String.eqb (URI (self m)) "") eqn:Hu; [discriminate|].
  apply String.eqb_neq in Hu.
  destruct (lbrynet_Resolve W (calls m) (URI (self m))) as [err|claim]; [discriminate|].
  destruct (GetStream claim) as [stream|] eqn:Hstream; [|discriminate].
  destruct (match Stream_Fee stream with Some fee => Amount fee >? 0 | None => false end);
    [discriminate|].
  destruct (Stream_Source stream) as [source|] eqn:Hsource; [|discriminate].
  intros H. inversion H; subst. split; [exact Hu|].
  exists claim, stream, source. auto.
Qed.

Lemma fetchData_ok_inv (W : World) (m m' : machine) :
  fetchData W m = (Returns None, m') ->
  SdHash (self m) <> "" /\
  calls m' = calls m ++ [HttpGet (URL (self m))] /\
  (exists stored, SDBlob_ptr (self m') = Some stored) /\
  URI (self m') = URI (self m) /\
  SdHash (self m') = SdHash (self m) /\
  ContentType (self m') = ContentType (self m) /\
  seekOffset (self m') = seekOffset (self m).
Proof.
  rewrite fetchData_unfold. cbv zeta.
  destruct (String.eqb (SdHash (self m)) "") eqn:Hsd; [discriminate|].
  apply String.eqb_neq in Hsd.
  destruct (http_Get_answer W (calls m) (URL (self m))) as [err|resp]; [discriminate|].
  destruct (Body resp) as [err|body]; [discriminate|].
  destruct (UnmarshalJSON W body) as [err|sdb]; [discriminate|].
  intros H. inversion H; subst. simpl.
  split; [exact Hsd|]. split; [reflexivity|]. split; [eexists; reflexivity|].
  repeat split.
Qed.

(** X13. [PlayURI] hands the handle to the range-serving facility only
    after the resolution and the index fetch have both succeeded: then the
    handle has its index, its cursor is 0, and the calls made so far are
    one to the resolver and one fetch of [reflectorURL] followed by the
    hexadecimal [SdHash] of the resolved source.  In every other case
    [PlayURI] returns the error (or panics) without running the facility.
    A source whose [SdHash] is empty resolves, and then fails at the index
    fetch before any request is made. *)
Theorem PlayURI_stages (W : World) (ServeContent : Go unit) (uri : string)
    (log : list event) :
  PlayURI W ServeContent uri log =
    match PlayURI W (ret tt) uri log with
    | (Returns None, m) => (ServeContent ;; ret None) m
    | other => other
    end /\
  (forall m,
     PlayURI W (ret tt) uri log = (Returns None, m) ->
     uri <> "" /\
     URI (self m) = uri /\
     seekOffset (self m) = 0 /\
     (exists stored, SDBlob_ptr (self m) = Some stored) /\
     (exists claim stream source,
        lbrynet_Resolve W log uri = inr claim /\
        GetStream claim = Some stream /\
        Stream_Source stream = Some source /\
        SdHash (self m) = hex_EncodeToString (Source_SdHash source) /\
        Source_SdHash source <> [] /\
        calls m = log ++ [Resolved uri;
                          HttpGet (String.append reflectorURL
                                     (hex_EncodeToString (Source_SdHash source)))])) /\
  (forall claim stream source,
     uri <> "" ->
     lbrynet_Resolve W log uri = inr claim ->
     GetStream claim = Some stream ->
     ~ paid stream ->
     Stream_Source stream = Some source ->
     Source_SdHash source = [] ->
     exists m,
       PlayURI W ServeContent uri log
         = (Returns (Some (errors_New "no sd hash set, call `resolve` first")), m) /\
       calls m = log ++ [Resolved uri]).
Proof.
  split; [|split].
  - unfold PlayURI.
    destruct (newReflectedStream W uri log) as [[[err|]|e] m0]; try reflexivity.
    unfold bind.
    destruct (fetchData W m0) as [[[err|]|e] m1]; reflexivity.
  - intros m H. unfold PlayURI in H.
    destruct (newReflectedStream W uri log) as [[[err|]|e] m0] eqn:Hnew; try discriminate.
    unfold bind in H.
    destruct (fetchData W m0) as [[[err|]|e] m1] eqn:Hfetch; try discriminate.
    unfold ret in H. injection H as <-.
    unfold newReflectedStream in Hnew.
    destruct (resolve_ok_inv W _ m0 Hnew)
      as (Hu & claim & stream & source & Hres & Hstream & Hsource & Hm0).
    simpl in Hu, Hres, Hm0.
    destruct (fetchData_ok_inv W m0 m1 Hfetch)
      as (Hsd & Hlog & Hptr & Huri & Hsd' & _ & Hcur).
    rewrite Hm0 in Hsd, Hlog, Huri, Hsd', Hcur. simpl in Hsd, Hlog, Huri, Hsd', Hcur.
    split; [exact Hu|]. split; [exact Huri|]. split; [exact Hcur|]. split; [exact Hptr|].
    exists claim, stream, source.
    repeat (split; [assumption|]).
    split.
    + intros Hnil. rewrite Hnil in Hsd. apply Hsd. reflexivity.
    + rewrite Hlog. unfold URL. simpl. rewrite <- app_assoc. reflexivity.
  - intros claim stream source Hu Hres Hstream Hfree Hsource Hnil.
    apply String.eqb_neq in Hu.
    unfold PlayURI, newReflectedStream. rewrite resolve_unfold. cbv zeta. simpl.
    rewrite Hu, Hres, Hstream, Hsource, Hnil.
    destruct (match Stream_Fee stream with Some fee => Amount fee >? 0 | None => false end)
      eqn:Hfee; [apply paid_test in Hfee; contradiction|].
    unfold bind. rewrite fetchData_unfold. cbv zeta. simpl.
    eexists. split; reflexivity.
Qed.

Lemma PlayURI_stages_witness :
  exists m,
    PlayURI demoWorld (ret tt) "lbry://free" [] = (Returns None, m) /\
    URI (self m) = "lbry://free" /\
    seekOffset (self m) = 0 /\
    (exists stored, SDBlob_ptr (self m) = Some stored) /\
    PlayURI demoWorld (Seek 7 io_SeekStart ;; ret tt) "lbry://free" []
      = ((Seek 7 io_SeekStart ;; ret tt) ;; ret None) m.
Proof.
  exists (mkMachine (demoStream 0)
            [Resolved "lbry://free"; HttpGet "http://blobs.lbry.io/aabb"]).
  assert (Hrun : PlayURI demoWorld (ret tt) "lbry://free" []
                 = (Returns None,
                    mkMachine (demoStream 0)
                      [Resolved "lbry://free"; HttpGet "http://blobs.lbry.io/aabb"]))
    by (vm_compute; reflexivity).
  destruct (PlayURI_stages demoWorld (Seek 7 io_SeekStart ;; ret tt) "lbry://free" [])
    as (Hstage & Hfacts & _).
  destruct (Hfacts _ Hrun) as (_ & Huri & Hcur & Hptr & _).
  split; [exact Hrun|]. split; [exact Huri|]. split; [exact Hcur|]. split; [exact Hptr|].
  rewrite Hstage, Hrun. reflexivity.
Defined.

(** * Properties of the users model *)

Lemma rangeHooks_app (D : Type) (pre post : list (UserHook D)) (exec : Executor D) (o : User)
    (db : database D) :
  rangeHooks D (pre ++ post) exec o db =
    match rangeHooks D pre exec o db with
    | (Some err, o', db') => (Some err, o', db')
    | (None, o', db') => rangeHooks D post exec o' db'
    end.
Proof.
  revert o db. induction pre as [|h pre IH]; intros o db; simpl; [reflexivity|].
  destruct (h exec o db) as [[[err|] o'] db']; [reflexivity | apply IH].
Qed.

Lemma doHooksAt_rangeHooks (D : Type) (p : HookPoint) (reg : HookRegistry D) :
  doHooksAt D p reg = rangeHooks D (hooksAt D p reg).
Proof. destruct p; reflexivity. Qed.

Lemma hooksAt_AddUserHook (D : Type) (p q : HookPoint) (h : UserHook D) (reg : HookRegistry D) :
  hooksAt D q (AddUserHook D p h reg) =
    hooksAt D q reg ++ (if sameHookPoint p q then [h] else []).
Proof. destruct p, q; simpl; rewrite ?app_nil_r; reflexivity. Qed.

(** X14. The hooks of a hook point run in the order of the slice and stop
    at the first that returns an error: that error is the result, with the
    user and the database as the failing hook left them, and no later hook
    runs. *)
Theorem hooks_stop_at_first_error (D : Type) (p : HookPoint) (reg : HookRegistry D)
    (pre post : list (UserHook D)) (h : UserHook D) (exec : Executor D)
    (o o1 o2 : User) (db db1 db2 : database D) (err : dbError) :
  hooksAt D p reg = pre ++ h :: post ->
  rangeHooks D pre exec o db = (None, o1, db1) ->
  h exec o1 db1 = (Some err, o2, db2) ->
  doHooksAt D p reg exec o db = (Some err, o2, db2).
Proof.
  intros Hreg Hpre Hh.
  rewrite doHooksAt_rangeHooks, Hreg, rangeHooks_app, Hpre. simpl. now rewrite Hh.
Qed.

(** X15. [AddUserHook] puts the hook at the end of the slice of its hook
    point and touches no other: afterwards the method of that point runs
    the earlier hooks first and the new one only if none of them failed,
    and the methods of the other points do what they did. *)
Theorem AddUserHook_runs_last (D : Type) (p q : HookPoint) (h : UserHook D)
    (reg : HookRegistry D) (exec : Executor D) (o : User) (db : database D) :
  doHooksAt D q (AddUserHook D p h reg) exec o db =
    if sameHookPoint p q then
      match doHooksAt D q reg exec o db with
      | (Some err, o', db') => (Some err, o', db')
      | (None, o', db') => h exec o' db'
      end
    else doHooksAt D q reg exec o db.
Proof.
  rewrite !doHooksAt_rangeHooks, hooksAt_AddUserHook.
  destruct (sameHookPoint p q).
  - rewrite rangeHooks_app.
    destruct (rangeHooks D (hooksAt D q reg) exec o db) as [[[err|] o'] db'];
      [reflexivity|].
    simpl. destruct (h exec o' db') as [[[err|] o''] db'']; reflexivity.
  - now rewrite app_nil_r.
Qed.

Lemma poke_same (h : heap) (a : nat) : forall b, poke h a (h a) b = h b.
Proof.
  intros b. unfold poke. destruct (Nat.eqb b a) eqn:E; [|reflexivity].
  apply Nat.eqb_eq in E. now subst.
Qed.

Lemma rangeUsers_no_hooks (D : Type) (exec : Executor D) (o : list nat) (h : heap)
    (db : database D) :
  exists h', rangeUsers D [] exec o h db = (None, h', db) /\ forall a, h' a = h a.
Proof.
  revert h. induction o as [|obj rest IH]; intros h; simpl.
  - exists h. auto.
  - destruct (IH (poke h obj (h obj))) as (h' & Hrun & Hsame).
    exists h'. split; [exact Hrun|].
    intros a. rewrite Hsame. apply poke_same.
Qed.

(** X16. [Delete] on a nil user fails without touching the database.
    Otherwise the before-delete hooks run first and a failing one ends the
    call before any statement; then one DELETE is executed, for the id the
    user has after those hooks; a failure of the executor or of the row
    count is wrapped and skips the after-delete hooks; a failing
    after-delete hook makes the call return 0 rows and the error although
    the statement has run.  An error never comes with a row count. *)
Theorem Delete_stages (D : Type) (reg : HookRegistry D) (exec : Executor D) (db : database D) :
  Delete D reg exec None db
    = ((0, Some (db_New "models: no User provided for delete")), None, db) /\
  (forall o err o1 db1,
     doBeforeDeleteHooks D reg exec o db = (Some err, o1, db1) ->
     Delete D reg exec (Some o) db = ((0, Some err), Some o1, db1)) /\
  (forall o o1 db1,
     doBeforeDeleteHooks D reg exec o db = (None, o1, db1) ->
     exists answer st,
       Exec_answer D exec deleteUserSQL [SqlInt (ID o1)] (store db1) = (answer, st) /\
       let db2 := mkDatabase st (statements db1 ++ [(deleteUserSQL, [SqlInt (ID o1)])]) in
       match answer with
       | inl err =>
           Delete D reg exec (Some o) db
             = ((0, Some (db_Wrap err "models: unable to delete from users")), Some o1, db2)
       | inr result =>
           match RowsAffected result with
           | inl err =>
               Delete D reg exec (Some o) db
                 = ((0, Some (db_Wrap err
                                "models: failed to get rows affected by delete for users")),
                    Some o1, db2)
           | inr rowsAff =>
               match doAfterDeleteHooks D reg exec o1 db2 with
               | (Some err, o3, db3) =>
                   Delete D reg exec (Some o) db = ((0, Some err), Some o3, db3)
               | (None, o3, db3) =>
                   Delete D reg exec (Some o) db = ((rowsAff, None), Some o3, db3)
               end
           end
       end) /\
  (forall o rows err o' db',
     Delete D reg exec o db = ((rows, Some err), o', db') -> rows = 0).
Proof.
  split; [reflexivity|]. split; [|split].
  - intros o err o1 db1 Hbefore. unfold Delete. now rewrite Hbefore.
  - intros o o1 db1 Hbefore.
    destruct (Exec_answer D exec deleteUserSQL [SqlInt (ID o1)] (store db1))
      as [answer st] eqn:Hexec.
    exists answer, st. split; [reflexivity|]. cbv zeta.
    unfold Delete. rewrite Hbefore. unfold Exec, primaryKeyValues. rewrite Hexec.
    destruct answer as [err|result]; [reflexivity|].
    destruct (RowsAffected result) as [err|rowsAff]; [reflexivity|].
    destruct (doAfterDeleteHooks D reg exec o1 _) as [[[err|] o3] db3]; reflexivity.
  - intros o rows err o' db'. unfold Delete.
    destruct o as [o|]; [|intros H; inversion H; reflexivity].
    destruct (doBeforeDeleteHooks D reg exec o db) as [[[e|] o1] db1];
      [intros H; inversion H; reflexivity|].
    destruct (Exec D exec deleteUserSQL (primaryKeyValues o1) db1) as [[e|result] db2];
      [intros H; inversion H; reflexivity|].
    destruct (RowsAffected result) as [e|rowsAff]; [intros H; inversion H; reflexivity|].
    destruct (doAfterDeleteHooks D reg exec o1 db2) as [[[e|] o3] db3];
      intros H; inversion H; reflexivity.
Qed.

(** The steps of [DeleteAll] once the before-delete hooks are through:
    the statement, the row count, the after-delete hooks. *)
Lemma DeleteAll_after_before (D : Type) (WhereClauseRepeated : nat -> string)
    (reg : HookRegistry D) (exec : Executor D) (o : list nat) (h h1 : heap)
    (db db1 : database D) :
  o <> [] ->
  userBeforeDeleteHooks reg <> [] ->
  rangeUsers D (userBeforeDeleteHooks reg) exec o h db = (None, h1, db1) ->
  let sql := deleteUsersSQL WhereClauseRepeated (List.length o) in
  let args := map (fun obj => SqlInt (ID (h1 obj))) o in
  exists answer st,
    Exec_answer D exec sql args (store db1) = (answer, st) /\
    let db2 := mkDatabase st (statements db1 ++ [(sql, args)]) in
    match answer with
    | inl err =>
        DeleteAll D WhereClauseRepeated reg exec o h db
          = ((0, Some (db_Wrap err "models: unable to delete all from user slice")),
             h1, db2)
    | inr result =>
        match RowsAffected result with
        | inl err =>
            DeleteAll D WhereClauseRepeated reg exec o h db
              = ((0, Some (db_Wrap err
                             "models: failed to get rows affected by deleteall for users")),
                 h1, db2)
        | inr rowsAff =>
            match (if negb (len (userAfterDeleteHooks reg) =? 0)
                   then rangeUsers D (userAfterDeleteHooks reg) exec o h1 db2
                   else (None, h1, db2)) with
            | (Some err, h3, db3) =>
                DeleteAll D WhereClauseRepeated reg exec o h db = ((0, Some err), h3, db3)
            | (None, h3, db3) =>
                DeleteAll D WhereClauseRepeated reg exec o h db = ((rowsAff, None), h3, db3)
            end
        end
    end.
Proof.
  intros Hne Hhooks Hbefore sql args.
  assert (Hlen : (len o =? 0) = false).
  { apply Z.eqb_neq. unfold len. destruct o; [contradiction | simpl; lia]. }
  assert (Hguard : negb (len (userBeforeDeleteHooks reg) =? 0) = true).
  { destruct (userBeforeDeleteHooks reg); [contradiction|].
    apply Bool.negb_true_iff, Z.eqb_neq. unfold len. simpl. lia. }
  assert (Hargs : forall l, flat_map (fun obj => primaryKeyValues (h1 obj)) l
                            = map (fun obj => SqlInt (ID (h1 obj))) l).
  { induction l as [|u l IH]; simpl; [reflexivity | now rewrite IH]. }
  destruct (Exec_answer D exec sql args (store db1)) as [answer st] eqn:Hexec.
  exists answer, st. split; [reflexivity|]. cbv zeta.
  unfold DeleteAll. rewrite Hlen, Hguard, Hbefore. unfold Exec. rewrite Hargs.
  fold sql. fold args. rewrite Hexec.
  destruct answer as [e|result]; [reflexivity|].
  destruct (RowsAffected result) as [e|rowsAff]; [reflexivity|].
  destruct (if negb (len (userAfterDeleteHooks reg) =? 0)
            then rangeUsers D (userAfterDeleteHooks reg) exec o h1 _
            else (None, h1, _)) as [[[e|] h3] db3]; reflexivity.
Qed.


Lemma hooks_stop_at_first_error_witness :
  let reg := AddUserHook nat BeforeDeleteHook stampHook
               (AddUserHook nat BeforeDeleteHook refuseHook
                  (AddUserHook nat BeforeDeleteHook stampHook noHooks)) in
  let db := mkDatabase 3%nat [] in
  doHooksAt nat BeforeDeleteHook reg countingExec demoUser db
    = (Some (db_New "refused"), mkUser 4 0 7 None "wallet" None, db).
Proof.
  intros reg db.
  apply (hooks_stop_at_first_error nat BeforeDeleteHook reg [stampHook] [stampHook]
           refuseHook countingExec demoUser (mkUser 4 0 7 None "wallet" None) _ db db db);
    reflexivity.
Defined.

Lemma Delete_stages_witness :
  let reg := AddUserHook nat AfterDeleteHook refuseHook noHooks in
  let db := mkDatabase 3%nat [] in
  Delete nat reg countingExec (Some demoUser) db
    = ((0, Some (db_New "refused")), Some demoUser,
       mkDatabase 2%nat [(deleteUserSQL, [SqlInt 4])]) /\
  Delete nat noHooks countingExec (Some demoUser) db
    = ((1, None), Some demoUser, mkDatabase 2%nat [(deleteUserSQL, [SqlInt 4])]).
Proof.
  intros reg db.
  destruct (Delete_stages nat reg countingExec db) as (_ & _ & Hrun & _).
  destruct (Delete_stages nat noHooks countingExec db) as (_ & _ & Hrun0 & _).
  split.
  - destruct (Hrun demoUser demoUser db eq_refl) as (answer & st & Hexec & Hout).
    injection Hexec as <- <-. exact Hout.
  - destruct (Hrun0 demoUser demoUser db eq_refl) as (answer & st & Hexec & Hout).
    injection Hexec as <- <-. exact Hout.
Defined.

